(** * AutoRetry: validity predicate, retry controller, generation-session
      tracker and Auto-Continue gate

    A shallow embedding of [src/core.js] (hasValidZhengwenTag),
    [src/controller.js] (AutoRetryController) and [src/runtime.js]
    (createAutoRetryRuntime), followed by the properties of the
    specification that were checked against them. *)

From Stdlib Require Import Ascii String Decimal.
From Stdlib Require Import List Bool Arith NArith ZArith QArith Qround Lia.
Import ListNotations.
Close Scope Q_scope.
Open Scope nat_scope.



(* ================================================================== *)
(** * JavaScript strings and values *)
(* ================================================================== *)

(** A JavaScript string is a sequence of UTF-16 code units.  The regular
    expression of [hasValidZhengwenTag] has no [u] flag, so it works on code
    units, and so does [String.prototype.trim]. *)
Definition char16 := N.
Definition jsstring := list char16.

(** Code units of an ASCII literal, so that tags can be written legibly. *)
Fixpoint str (s : string) : jsstring :=
  match s with
  | EmptyString => []
  | String c s' => N_of_ascii c :: str s'
  end.

Fixpoint jsstring_eqb (a b : jsstring) : bool :=
  match a, b with
  | [], [] => true
  | x :: a', y :: b' => N.eqb x y && jsstring_eqb a' b'
  | _, _ => false
  end.

(** [a === b] for values that are either [null]/[undefined] or a string. *)
Definition opt_jsstring_eqb (a b : option jsstring) : bool :=
  match a, b with
  | None, None => true
  | Some x, Some y => jsstring_eqb x y
  | _, _ => false
  end.

(** The values a caller can hand to a function typed [unknown]. *)
Inductive value :=
| VUndefined
| VNull
| VBool (b : bool)
| VNumber (q : Q)
| VString (s : jsstring)
| VObject.

(** ECMAScript WhiteSpace and LineTerminator code points: what [\s] matches
    and what [trim] strips. *)
Definition isWhiteSpace (c : char16) : bool :=
  ((9 <=? c) && (c <=? 13)
   || (c =? 32) || (c =? 160) || (c =? 0x1680)
   || ((0x2000 <=? c) && (c <=? 0x200A))
   || (c =? 0x2028) || (c =? 0x2029) || (c =? 0x202F) || (c =? 0x205F)
   || (c =? 0x3000) || (c =? 0xFEFF))%N.

Fixpoint trimStart (s : jsstring) : jsstring :=
  match s with
  | [] => []
  | c :: s' => if isWhiteSpace c then trimStart s' else s
  end.

Definition trimEnd (s : jsstring) : jsstring := rev (trimStart (rev s)).

(** [s.trim()] *)
Definition trim (s : jsstring) : jsstring := trimEnd (trimStart s).

(* ================================================================== *)
(** * core.js: the validity predicate *)
(* ================================================================== *)

Module Core.

(** The two alternatives of the capture group [(正文|game)], in the order the
    regular expression tries them. *)
Definition zhengwen : jsstring := [0x6B63; 0x6587]%N.
Definition game : jsstring := str "game".
Definition tagNames : list jsstring := [zhengwen; game].

(** [<name>] and [</name>]: the literal parts of the pattern around the
    name and its back-reference [\1]. *)
Definition openTag (name : jsstring) : jsstring := str "<" ++ name ++ str ">".
Definition closeTag (name : jsstring) : jsstring := str "</" ++ name ++ str ">".

(** Matching a literal at the current position: the rest of the input after
    it, or [None] when the input does not start with it. *)
Fixpoint matchLiteral (lit s : jsstring) : option jsstring :=
  match lit, s with
  | [], _ => Some s
  | _ :: _, [] => None
  | x :: lit', y :: s' => if N.eqb x y then matchLiteral lit' s' else None
  end.

(** The lazy quantifier [[\s\S]*?] followed by the literal [close]: the
    captured text grows one code unit at a time until [close] matches, so
    the capture ends at the first occurrence of [close]. *)
Fixpoint matchLazy (close s : jsstring) : option (jsstring * jsstring) :=
  match matchLiteral close s with
  | Some rest => Some ([], rest)
  | None =>
      match s with
      | [] => None
      | c :: s' =>
          match matchLazy close s' with
          | Some (inner, rest) => Some (c :: inner, rest)
          | None => None
          end
      end
  end.

(** One alternative of the group at the current position:
    [<name>([\s\S]*?)</name>]. *)
Definition matchTag (name s : jsstring) : option (jsstring * jsstring) :=
  match matchLiteral (openTag name) s with
  | Some afterOpen => matchLazy (closeTag name) afterOpen
  | None => None
  end.

(** The whole pattern at the current position; the alternatives are tried
    left to right, backtracking into the next one when the rest of the
    pattern fails.  Result: capture 1, capture 2 and the unread input. *)
Fixpoint matchAlternatives (names : list jsstring) (s : jsstring)
  : option (jsstring * jsstring * jsstring) :=
  match names with
  | [] => None
  | name :: names' =>
      match matchTag name s with
      | Some (inner, rest) => Some (name, inner, rest)
      | None => matchAlternatives names' s
      end
  end.

Definition matchHere (s : jsstring) : option (jsstring * jsstring * jsstring) :=
  matchAlternatives tagNames s.

(** A successful [regex.exec(text)]: the match array (index, the two
    captures) and the [lastIndex] the global regex is left with. *)
Record Match := {
  m_index : nat;
  m_group1 : jsstring;
  m_group2 : jsstring;
  m_lastIndex : nat
}.

(** The search of [exec]: try the pattern at [pos], then at [pos + 1], ...
    [s] is the input from [pos] on. *)
Fixpoint search (total : nat) (s : jsstring) : option Match :=
  match matchHere s with
  | Some (name, inner, rest) =>
      Some {| m_index := total - length s;
              m_group1 := name;
              m_group2 := inner;
              m_lastIndex := total - length rest |}
  | None =>
      match s with
      | [] => None
      | _ :: s' => search total s'
      end
  end.

(** [regex.exec(text)] for a regex with the [g] flag whose [lastIndex] is
    [lastIndex]. *)
Definition exec (text : jsstring) (lastIndex : nat) : option Match :=
  if length text <? lastIndex then None
  else search (length text) (skipn lastIndex text).

(** The [for] loop of [hasValidZhengwenTag].  Every match consumes at least
    the two tags, so [lastIndex] grows strictly and the loop runs at most
    [length text] times; [fuel] bounds the iterations, and [None] is the
    loop cut short. *)
Fixpoint validLoop (fuel : nat) (text : jsstring) (lastIndex : nat)
  : option bool :=
  match fuel with
  | O => None
  | S fuel' =>
      match exec text lastIndex with
      | None => Some false
      | Some m =>
          if 0 <? length (trim (m_group2 m)) then Some true
          else validLoop fuel' text (m_lastIndex m)
      end
  end.

Definition hasValidZhengwenTagString (text : jsstring) : bool :=
  match validLoop (S (length text)) text 0 with
  | Some b => b
  | None => false
  end.

(** [export function hasValidZhengwenTag(text)] *)
Definition hasValidZhengwenTag (text : value) : bool :=
  match text with
  | VString s => hasValidZhengwenTagString s
  | _ => false
  end.

(** ** The specification's reading of "a tag pair"

    A tag pair of [name] sits at the front of [s] when [s] opens with
    [<name>] and [</name>] occurs later; its inner text runs up to the
    nearest such closing tag (the matching is non-greedy). *)
Definition pairAtFront (s name inner : jsstring) : Prop :=
  exists post,
    s = openTag name ++ inner ++ closeTag name ++ post /\
    forall a b, inner ++ closeTag name ++ post = a ++ closeTag name ++ b ->
                length inner <= length a.

(** [text] contains a pair of an accepted name whose trimmed inner text is
    not empty. *)
Definition hasNonEmptyPair (text : jsstring) : Prop :=
  exists pre s name inner,
    text = pre ++ s /\ In name tagNames /\ pairAtFront s name inner /\
    trim inner <> [].

(** A cross-name pair: [<name>] is followed by the closing tag of the other
    accepted name, and by no closing tag of its own. *)
Definition hasCrossPair (text : jsstring) : Prop :=
  exists pre name other inner post,
    In name tagNames /\ In other tagNames /\ name <> other /\
    text = pre ++ openTag name ++ inner ++ closeTag other ++ post /\
    forall a b, inner ++ closeTag other ++ post <> a ++ closeTag name ++ b.

End Core.

(* ================================================================== *)
(** * The collaborators: settings, scheduler, logger, host *)
(* ================================================================== *)

(** A JavaScript number, as far as [Number.isFinite], [Number.isInteger] and
    [Math.floor] can tell numbers apart. *)
Inductive number :=
| NaN
| Infinity (negative : bool)
| Finite (q : Q).

Definition isInteger (x : number) : option Z :=
  match x with
  | Finite q =>
      if Qeq_bool q (inject_Z (Qfloor q)) then Some (Qfloor q) else None
  | _ => None
  end.

(** What [getSettings()] hands back: the two flags as they are stored and
    the two numeric fields after [Number(...)]. *)
Record RawSettings := {
  raw_enabled : value;
  raw_maxRetries : number;
  raw_cooldownMs : number;
  raw_stopOnManualRegen : value
}.

(** The object [#readSettings] returns. *)
Record Settings := {
  enabled : bool;
  maxRetries : nat;
  cooldownMs : nat;
  stopOnManualRegen : bool
}.

(** [v === true] *)
Definition isTrue (v : value) : bool :=
  match v with VBool true => true | _ => false end.

(** [v === false] *)
Definition isFalse (v : value) : bool :=
  match v with VBool false => true | _ => false end.

(** [Number.isFinite(x) ? Math.max(0, Math.floor(x)) : 0] *)
Definition clampCount (x : number) : nat :=
  match x with
  | Finite q => Z.to_nat (Z.max 0 (Qfloor q))
  | _ => 0
  end.

Definition readSettings (settings : RawSettings) : Settings :=
  {| enabled := isTrue (raw_enabled settings);
     maxRetries := clampCount (raw_maxRetries settings);
     cooldownMs := clampCount (raw_cooldownMs settings);
     stopOnManualRegen := isTrue (raw_stopOnManualRegen settings) |}.

(** A thrown value. *)
Definition Exn := jsstring.

(** The two closures handed to [scheduler.setTimeout], with the variables
    they capture. *)
Inductive Callback :=
| RetryCallback (messageKey : jsstring) (attempt : nat)
| SettleCallback (seq : nat) (chatId : jsstring) (targetIndex : nat).

Record Timer := {
  timer_id : nat;
  timer_at : nat;
  timer_fn : Callback
}.

(** The scheduler: a clock and the timers that have not fired yet, oldest
    first.  A timer fires no earlier than [timer_at]. *)
Record Scheduler := {
  nowMs : nat;
  nextId : nat;
  timers : list Timer
}.

Definition setTimeout (fn : Callback) (delayMs : nat) (s : Scheduler)
  : nat * Scheduler :=
  (nextId s,
   {| nowMs := nowMs s;
      nextId := S (nextId s);
      timers := timers s ++ [{| timer_id := nextId s;
                                timer_at := nowMs s + delayMs;
                                timer_fn := fn |}] |}).

Definition clearTimeout (id : nat) (s : Scheduler) : Scheduler :=
  {| nowMs := nowMs s;
     nextId := nextId s;
     timers := filter (fun t => negb (timer_id t =? id)) (timers s) |}.

(** The calls made on the logger. *)
Inductive LogEntry :=
| LogCheck (messageKey : jsstring) (valid : bool) (retryCount maxRetries : nat)
| LogMaxRetriesReached (messageKey : jsstring) (maxRetries : nat)
| LogRetryScheduled (messageKey : jsstring)
    (attempt maxRetries cooldownMs : nat)
| LogRegenClick (messageKey : jsstring) (attempt : nat)
| LogManualRegenerate
| LogGenerationStarted (chatId : jsstring) (targetIndex : nat)
| LogNoAssistantMessage (chatId : jsstring) (targetIndex settleDelayMs : nat)
| LogError (err : Exn).

(** Private fields of [AutoRetryController]. *)
Record Controller := {
  disposed : bool;
  isGenerating : bool;
  pendingTimerId : option nat;
  retryCount : nat;
  lastMessageKey : option jsstring;
  suppressedByManualRegen : bool;
  loggedMaxRetriesMessageKey : option jsstring;
  loggedCheckMessageKey : option jsstring;
  loggedCheckValid : option bool
}.

(** [generationSession] of the runtime. *)
Record GenerationSession := {
  gs_seq : nat;
  gs_chatId : option jsstring;
  gs_targetIndex : option nat;
  gs_isGenerating : bool;
  gs_settleTimerId : option nat
}.

(** [autoContinueGate] of the runtime. *)
Record Gate := {
  gate_chatId : option jsstring;
  gate_assistantIndex : option nat;
  gate_messageKey : option jsstring;
  gate_assistantValid : bool;
  gate_consumedForMessageKey : option jsstring
}.

(** Everything one runtime instance owns or shares with its collaborators.
    [logs] is what the logger has been told, oldest first;
    [regenerateCalls] holds the clock reading of every invocation of the
    regenerate action, oldest first. *)
Record World := {
  controller : Controller;
  generationSession : GenerationSession;
  autoContinueGate : Gate;
  scheduler : Scheduler;
  logs : list LogEntry;
  regenerateCalls : list nat
}.

(** The host's regenerate action: it may change the world (for instance by
    emitting notifications synchronously) and it may throw. *)
Definition Host := World -> World * option Exn.

Definition initialController : Controller :=
  {| disposed := false; isGenerating := false; pendingTimerId := None;
     retryCount := 0; lastMessageKey := None;
     suppressedByManualRegen := false;
     loggedMaxRetriesMessageKey := None;
     loggedCheckMessageKey := None; loggedCheckValid := None |}.

Definition initialSession : GenerationSession :=
  {| gs_seq := 0; gs_chatId := None; gs_targetIndex := None;
     gs_isGenerating := false; gs_settleTimerId := None |}.

Definition initialGate : Gate :=
  {| gate_chatId := None; gate_assistantIndex := None;
     gate_messageKey := None; gate_assistantValid := true;
     gate_consumedForMessageKey := None |}.

Definition initialScheduler : Scheduler :=
  {| nowMs := 0; nextId := 1; timers := [] |}.

Definition initialWorld : World :=
  {| controller := initialController;
     generationSession := initialSession;
     autoContinueGate := initialGate;
     scheduler := initialScheduler;
     logs := [];
     regenerateCalls := [] |}.

(** ** Field updates *)

Definition updController (f : Controller -> Controller) (w : World) : World :=
  {| controller := f (controller w);
     generationSession := generationSession w;
     autoContinueGate := autoContinueGate w;
     scheduler := scheduler w;
     logs := logs w;
     regenerateCalls := regenerateCalls w |}.

Definition updSession (f : GenerationSession -> GenerationSession) (w : World)
  : World :=
  {| controller := controller w;
     generationSession := f (generationSession w);
     autoContinueGate := autoContinueGate w;
     scheduler := scheduler w;
     logs := logs w;
     regenerateCalls := regenerateCalls w |}.

Definition updGate (f : Gate -> Gate) (w : World) : World :=
  {| controller := controller w;
     generationSession := generationSession w;
     autoContinueGate := f (autoContinueGate w);
     scheduler := scheduler w;
     logs := logs w;
     regenerateCalls := regenerateCalls w |}.

Definition updScheduler (f : Scheduler -> Scheduler) (w : World) : World :=
  {| controller := controller w;
     generationSession := generationSession w;
     autoContinueGate := autoContinueGate w;
     scheduler := f (scheduler w);
     logs := logs w;
     regenerateCalls := regenerateCalls w |}.

(** One call on the logger. *)
Definition log (e : LogEntry) (w : World) : World :=
  {| controller := controller w;
     generationSession := generationSession w;
     autoContinueGate := autoContinueGate w;
     scheduler := scheduler w;
     logs := logs w ++ [e];
     regenerateCalls := regenerateCalls w |}.

(** The regenerate action is entered at the current clock reading. *)
Definition noteRegenerateCall (w : World) : World :=
  {| controller := controller w;
     generationSession := generationSession w;
     autoContinueGate := autoContinueGate w;
     scheduler := scheduler w;
     logs := logs w;
     regenerateCalls := regenerateCalls w ++ [nowMs (scheduler w)] |}.

Definition setIsGenerating (b : bool) (c : Controller) : Controller :=
  {| disposed := disposed c; isGenerating := b;
     pendingTimerId := pendingTimerId c; retryCount := retryCount c;
     lastMessageKey := lastMessageKey c;
     suppressedByManualRegen := suppressedByManualRegen c;
     loggedMaxRetriesMessageKey := loggedMaxRetriesMessageKey c;
     loggedCheckMessageKey := loggedCheckMessageKey c;
     loggedCheckValid := loggedCheckValid c |}.

Definition setDisposed (b : bool) (c : Controller) : Controller :=
  {| disposed := b; isGenerating := isGenerating c;
     pendingTimerId := pendingTimerId c; retryCount := retryCount c;
     lastMessageKey := lastMessageKey c;
     suppressedByManualRegen := suppressedByManualRegen c;
     loggedMaxRetriesMessageKey := loggedMaxRetriesMessageKey c;
     loggedCheckMessageKey := loggedCheckMessageKey c;
     loggedCheckValid := loggedCheckValid c |}.

Definition setPendingTimerId (t : option nat) (c : Controller) : Controller :=
  {| disposed := disposed c; isGenerating := isGenerating c;
     pendingTimerId := t; retryCount := retryCount c;
     lastMessageKey := lastMessageKey c;
     suppressedByManualRegen := suppressedByManualRegen c;
     loggedMaxRetriesMessageKey := loggedMaxRetriesMessageKey c;
     loggedCheckMessageKey := loggedCheckMessageKey c;
     loggedCheckValid := loggedCheckValid c |}.

Definition setRetryCount (n : nat) (c : Controller) : Controller :=
  {| disposed := disposed c; isGenerating := isGenerating c;
     pendingTimerId := pendingTimerId c; retryCount := n;
     lastMessageKey := lastMessageKey c;
     suppressedByManualRegen := suppressedByManualRegen c;
     loggedMaxRetriesMessageKey := loggedMaxRetriesMessageKey c;
     loggedCheckMessageKey := loggedCheckMessageKey c;
     loggedCheckValid := loggedCheckValid c |}.

Definition setLastMessageKey (k : option jsstring) (c : Controller)
  : Controller :=
  {| disposed := disposed c; isGenerating := isGenerating c;
     pendingTimerId := pendingTimerId c; retryCount := retryCount c;
     lastMessageKey := k;
     suppressedByManualRegen := suppressedByManualRegen c;
     loggedMaxRetriesMessageKey := loggedMaxRetriesMessageKey c;
     loggedCheckMessageKey := loggedCheckMessageKey c;
     loggedCheckValid := loggedCheckValid c |}.

Definition setSuppressedByManualRegen (b : bool) (c : Controller)
  : Controller :=
  {| disposed := disposed c; isGenerating := isGenerating c;
     pendingTimerId := pendingTimerId c; retryCount := retryCount c;
     lastMessageKey := lastMessageKey c;
     suppressedByManualRegen := b;
     loggedMaxRetriesMessageKey := loggedMaxRetriesMessageKey c;
     loggedCheckMessageKey := loggedCheckMessageKey c;
     loggedCheckValid := loggedCheckValid c |}.

Definition setLoggedMaxRetriesMessageKey (k : option jsstring) (c : Controller)
  : Controller :=
  {| disposed := disposed c; isGenerating := isGenerating c;
     pendingTimerId := pendingTimerId c; retryCount := retryCount c;
     lastMessageKey := lastMessageKey c;
     suppressedByManualRegen := suppressedByManualRegen c;
     loggedMaxRetriesMessageKey := k;
     loggedCheckMessageKey := loggedCheckMessageKey c;
     loggedCheckValid := loggedCheckValid c |}.

Definition setLoggedCheck (k : option jsstring) (v : option bool)
  (c : Controller) : Controller :=
  {| disposed := disposed c; isGenerating := isGenerating c;
     pendingTimerId := pendingTimerId c; retryCount := retryCount c;
     lastMessageKey := lastMessageKey c;
     suppressedByManualRegen := suppressedByManualRegen c;
     loggedMaxRetriesMessageKey := loggedMaxRetriesMessageKey c;
     loggedCheckMessageKey := k;
     loggedCheckValid := v |}.

(** [scheduler.setTimeout(fn, delayMs)] on the world's scheduler. *)
Definition schedule (fn : Callback) (delayMs : nat) (w : World) : nat * World :=
  let (id, s) := setTimeout fn delayMs (scheduler w) in
  (id, updScheduler (fun _ => s) w).

(** [scheduler.clearTimeout(id)] on the world's scheduler. *)
Definition unschedule (id : nat) (w : World) : World :=
  updScheduler (clearTimeout id) w.

(* ================================================================== *)
(** * controller.js: AutoRetryController *)
(* ================================================================== *)

Module Controller.

(** The argument of [onGenerationEnded]. *)
Record GenerationEndedEvent := {
  messageKey : value;
  messageText : value
}.

(** [typeof v === 'string' ? v : ''] *)
Definition stringOrEmpty (v : value) : jsstring :=
  match v with VString s => s | _ => [] end.

(** [#cancelPending()]; the scheduler's [clearTimeout] is taken not to
    throw. *)
Definition cancelPending (w : World) : World :=
  match pendingTimerId (controller w) with
  | None => w
  | Some id => updController (setPendingTimerId None) (unschedule id w)
  end.

(** [#reset(_reason)] *)
Definition reset (w : World) : World :=
  cancelPending
    (updController
       (fun c => setLoggedCheck None None
                   (setLoggedMaxRetriesMessageKey None
                      (setIsGenerating false
                         (setSuppressedByManualRegen false
                            (setLastMessageKey None (setRetryCount 0 c))))))
       w).

(** [dispose()] *)
Definition dispose (w : World) : World :=
  cancelPending (updController (setDisposed true) w).

(** [onGenerationStarted()] *)
Definition onGenerationStarted (w : World) : World :=
  cancelPending (updController (setIsGenerating true) w).

(** [onUserMessageSent()] *)
Definition onUserMessageSent (w : World) : World := reset w.

(** [onChatChanged()] *)
Definition onChatChanged (w : World) : World := reset w.

Section Deps.

(** What [getSettings()] returns at the time of the call. *)
Variable getSettings : RawSettings.

(** [requestRegenerate], supplied by the host. *)
Variable requestRegenerate : Host.

(** [onManualRegenerate()] *)
Definition onManualRegenerate (w : World) : World :=
  let settings := readSettings getSettings in
  if negb (stopOnManualRegen settings) then w
  else
    let w := updController
               (fun c => setLoggedCheck None None
                           (setLoggedMaxRetriesMessageKey None
                              (setRetryCount 0
                                 (setSuppressedByManualRegen true c))))
               w in
    let w := cancelPending w in
    log LogManualRegenerate w.

(** [try { body } catch (err) { handler(err) }]: the world as the body left
    it goes to the handler; the second component is the exception that
    leaves the statement. *)
Definition tryCatch (body : World -> World * option Exn)
  (handler : Exn -> World -> World * option Exn) (w : World)
  : World * option Exn :=
  match body w with
  | (w', None) => (w', None)
  | (w', Some err) => handler err w'
  end.

(** The arrow function passed to [setTimeout] in [onGenerationEnded]; it
    captured [messageKey] and [attempt]. *)
Definition retryCallback (messageKey : jsstring) (attempt : nat) (w : World)
  : World * option Exn :=
  let w := updController (setPendingTimerId None) w in
  if disposed (controller w) then (w, None)
  else
    let latestSettings := readSettings getSettings in
    if negb (enabled latestSettings) then (w, None)
    else if stopOnManualRegen latestSettings
            && suppressedByManualRegen (controller w) then (w, None)
    else
      tryCatch
        (fun w =>
           let w := log (LogRegenClick messageKey attempt) w in
           requestRegenerate (noteRegenerateCall w))
        (fun err w => (log (LogError err) w, None))
        w.

(** [onGenerationEnded(event)] *)
Definition onGenerationEnded (event : GenerationEndedEvent) (w : World)
  : World :=
  let w := updController (setIsGenerating false) w in
  if disposed (controller w) then w
  else
    let settings := readSettings getSettings in
    if negb (enabled settings) then cancelPending w
    else if stopOnManualRegen settings
            && suppressedByManualRegen (controller w) then w
    else
      let messageKey := stringOrEmpty (messageKey event) in
      let messageText := stringOrEmpty (messageText event) in
      match messageKey with
      | [] => w
      | _ :: _ =>
          let w :=
            if negb (opt_jsstring_eqb (lastMessageKey (controller w))
                       (Some messageKey))
            then cancelPending
                   (updController
                      (fun c => setLoggedMaxRetriesMessageKey None
                                  (setLastMessageKey (Some messageKey)
                                     (setRetryCount 0 c)))
                      w)
            else w in
          let valid := Core.hasValidZhengwenTag (VString messageText) in
          let w :=
            if negb (opt_jsstring_eqb (loggedCheckMessageKey (controller w))
                       (Some messageKey))
               || negb (match loggedCheckValid (controller w) with
                        | Some v => Bool.eqb v valid
                        | None => false
                        end)
            then log (LogCheck messageKey valid (retryCount (controller w))
                        (maxRetries settings))
                   (updController
                      (setLoggedCheck (Some messageKey) (Some valid)) w)
            else w in
          if valid then
            cancelPending
              (updController
                 (fun c => setLoggedMaxRetriesMessageKey None
                             (setRetryCount 0 c))
                 w)
          else
            match pendingTimerId (controller w) with
            | Some _ => w
            | None =>
                if maxRetries settings <=? retryCount (controller w) then
                  if negb (opt_jsstring_eqb
                             (loggedMaxRetriesMessageKey (controller w))
                             (Some messageKey))
                  then log (LogMaxRetriesReached messageKey
                              (maxRetries settings))
                         (updController
                            (setLoggedMaxRetriesMessageKey (Some messageKey))
                            w)
                  else w
                else if isGenerating (controller w) then w
                else
                  let w := updController
                             (fun c => setRetryCount (retryCount c + 1) c) w in
                  let attempt := retryCount (controller w) in
                  let cooldownMs := cooldownMs settings in
                  let w := log (LogRetryScheduled messageKey attempt
                                  (maxRetries settings) cooldownMs) w in
                  let (id, w) :=
                    schedule (RetryCallback messageKey attempt) cooldownMs w in
                  updController (setPendingTimerId (Some id)) w
            end
      end.

End Deps.

End Controller.

(* ================================================================== *)
(** * runtime.js: createAutoRetryRuntime *)
(* ================================================================== *)

Module Runtime.

(** One entry of [context.chat]; [mes] is [None] when it is not a string. *)
Record Message := {
  is_user : bool;
  is_system : bool;
  mes : option jsstring
}.

(** What [getContext()] returns: [chatId] ([None] when it is not a string)
    and [chat] ([None] when it is not an array; an entry is [None] when it
    is [null] or [undefined]). *)
Record Context := {
  ctx_chatId : option jsstring;
  ctx_chat : option (list (option Message))
}.

(** The argument of [shouldBlockAutoContinueTimeskipSend]'s
    [autoContinueSettings], when it is an object. *)
Record AutoContinueSettings := {
  ac_enabled : value;
  ac_autoContinue : value;
  ac_selectedOption : option jsstring;
  ac_timeskipOptions : option (list (option jsstring))
}.

Record SendAttempt := {
  isTrusted : bool;
  sendText : option jsstring;
  autoContinueSettings : option AutoContinueSettings
}.

Definition SETTLE_DELAY_MS : nat := 250.

(** [String(v ?? '')] for a value that is a string, [null] or
    [undefined]. *)
Definition stringOf (v : option jsstring) : jsstring :=
  match v with Some s => s | None => [] end.

(** [!s] for a string. *)
Definition isEmpty (s : jsstring) : bool :=
  match s with [] => true | _ :: _ => false end.

(** The decimal digits of an index, as template literals print them. *)
Fixpoint digits (d : Decimal.uint) : jsstring :=
  match d with
  | Decimal.Nil => []
  | Decimal.D0 d' => 48%N :: digits d'
  | Decimal.D1 d' => 49%N :: digits d'
  | Decimal.D2 d' => 50%N :: digits d'
  | Decimal.D3 d' => 51%N :: digits d'
  | Decimal.D4 d' => 52%N :: digits d'
  | Decimal.D5 d' => 53%N :: digits d'
  | Decimal.D6 d' => 54%N :: digits d'
  | Decimal.D7 d' => 55%N :: digits d'
  | Decimal.D8 d' => 56%N :: digits d'
  | Decimal.D9 d' => 57%N :: digits d'
  end.

(** [makeMessageKey]: the template literal [chatId:index]. *)
Definition makeMessageKey (chatId : jsstring) (index : nat) : jsstring :=
  chatId ++ str ":" ++ digits (Nat.to_uint index).

(** [typeof context.chatId === 'string' ? context.chatId : 'unknown'] *)
Definition chatIdOf (context : Context) : jsstring :=
  match ctx_chatId context with
  | Some id => id
  | None => str "unknown"
  end.

(** The loop of [findLatestAssistantMessage], about to look at index
    [n - 1]. *)
Fixpoint findLatestFrom (chat : list (option Message)) (n : nat)
  : option (nat * jsstring) :=
  match n with
  | O => None
  | S i =>
      match nth_error chat i with
      | Some (Some msg) =>
          if is_system msg then findLatestFrom chat i
          else if is_user msg then None
          else match mes msg with
               | Some text => Some (i, text)
               | None => None
               end
      | _ => findLatestFrom chat i
      end
  end.

Definition findLatestAssistantMessage (chat : option (list (option Message)))
  : option (nat * jsstring) :=
  match chat with
  | None => None
  | Some chat => findLatestFrom chat (length chat)
  end.

(** The loop of [computeTargetAssistantIndex], about to look at index
    [n - 1]. *)
Fixpoint computeTargetFrom (chat : list (option Message)) (n : nat) : nat :=
  match n with
  | O => 0
  | S i =>
      match nth_error chat i with
      | Some (Some msg) =>
          if is_system msg then computeTargetFrom chat i
          else if is_user msg then i + 1
          else i
      | _ => computeTargetFrom chat i
      end
  end.

Definition computeTargetAssistantIndex (chat : option (list (option Message)))
  : option nat :=
  match chat with
  | None => None
  | Some chat => Some (computeTargetFrom chat (length chat))
  end.

Definition readAssistantTextAt (chat : option (list (option Message)))
  (index : nat) : option jsstring :=
  match chat with
  | None => None
  | Some chat =>
      if length chat <=? index then None
      else
        match nth_error chat index with
        | Some (Some msg) =>
            if is_system msg || is_user msg then None
            else Some (stringOf (mes msg))
        | _ => None
        end
  end.

Definition isAutoContinueTimeskipSendAttempt (messageText : option jsstring)
  (autoContinueSettings : option AutoContinueSettings) : bool :=
  match autoContinueSettings with
  | None => false
  | Some settings =>
      if isFalse (ac_enabled settings) then false
      else if negb (isTrue (ac_autoContinue settings)) then false
      else
        let normalized := trim (stringOf messageText) in
        if isEmpty normalized then false
        else
          let selectedOption := trim (stringOf (ac_selectedOption settings)) in
          if negb (isEmpty selectedOption)
             && jsstring_eqb normalized selectedOption then true
          else
            match ac_timeskipOptions settings with
            | Some options =>
                existsb
                  (fun opt => jsstring_eqb normalized (trim (stringOf opt)))
                  options
            | None => false
            end
  end.

(** [updateAutoContinueGate({ chatId, assistantIndex, assistantText })] *)
Definition updateAutoContinueGate (chatId : jsstring) (assistantIndex : nat)
  (assistantText : jsstring) (w : World) : World :=
  let messageKey := makeMessageKey chatId assistantIndex in
  let w :=
    if negb (opt_jsstring_eqb (gate_messageKey (autoContinueGate w))
               (Some messageKey))
    then updGate
           (fun g => {| gate_chatId := Some chatId;
                        gate_assistantIndex := Some assistantIndex;
                        gate_messageKey := Some messageKey;
                        gate_assistantValid := gate_assistantValid g;
                        gate_consumedForMessageKey := None |})
           w
    else w in
  updGate
    (fun g => {| gate_chatId := gate_chatId g;
                 gate_assistantIndex := gate_assistantIndex g;
                 gate_messageKey := gate_messageKey g;
                 gate_assistantValid :=
                   Core.hasValidZhengwenTag (VString assistantText);
                 gate_consumedForMessageKey := gate_consumedForMessageKey g |})
    w.

Definition setSettleTimerId (t : option nat) (g : GenerationSession)
  : GenerationSession :=
  {| gs_seq := gs_seq g; gs_chatId := gs_chatId g;
     gs_targetIndex := gs_targetIndex g;
     gs_isGenerating := gs_isGenerating g;
     gs_settleTimerId := t |}.

Definition setSessionIsGenerating (b : bool) (g : GenerationSession)
  : GenerationSession :=
  {| gs_seq := gs_seq g; gs_chatId := gs_chatId g;
     gs_targetIndex := gs_targetIndex g;
     gs_isGenerating := b;
     gs_settleTimerId := gs_settleTimerId g |}.

(** [cancelSettle()]; the scheduler's [clearTimeout] is taken not to
    throw. *)
Definition cancelSettle (w : World) : World :=
  match gs_settleTimerId (generationSession w) with
  | None => w
  | Some id => updSession (setSettleTimerId None) (unschedule id w)
  end.

(** [resetGenerationOnly()] *)
Definition resetGenerationOnly (w : World) : World :=
  cancelSettle
    (updSession
       (fun g => {| gs_seq := gs_seq g + 1;
                    gs_chatId := None;
                    gs_targetIndex := None;
                    gs_isGenerating := false;
                    gs_settleTimerId := gs_settleTimerId g |})
       w).

(** [resetGenerationSession()] *)
Definition resetGenerationSession (w : World) : World :=
  updGate (fun _ => initialGate) (resetGenerationOnly w).

(** [onMessageSent]: the gate is deliberately left alone. *)
Definition onMessageSent (w : World) : World :=
  Controller.onUserMessageSent (resetGenerationOnly w).

(** [onChatChanged] *)
Definition onChatChanged (w : World) : World :=
  Controller.onChatChanged (resetGenerationSession w).

(** [dispose] of the returned object, as far as the state goes. *)
Definition dispose (w : World) : World := Controller.dispose w.

Section Deps.

(** What [getSettings()] and [getContext()] return at the time of the
    call. *)
Variable getSettings : RawSettings.
Variable getContext : Context.

(** One evaluation: the gate and the controller are fed the text observed
    at a slot. *)
Definition evaluate (chatId : jsstring) (index : nat) (text : jsstring)
  (w : World) : World :=
  let w := updateAutoContinueGate chatId index text w in
  Controller.onGenerationEnded getSettings
    {| Controller.messageKey := VString (makeMessageKey chatId index);
       Controller.messageText := VString text |}
    w.

(** [onGenerationStarted] *)
Definition onGenerationStarted (w : World) : World :=
  let context := getContext in
  let chatId := chatIdOf context in
  let targetIndex :=
    match computeTargetAssistantIndex (ctx_chat context) with
    | Some i => i
    | None => 0
    end in
  let w := updSession
             (fun g => {| gs_seq := gs_seq g + 1;
                          gs_chatId := Some chatId;
                          gs_targetIndex := Some targetIndex;
                          gs_isGenerating := true;
                          gs_settleTimerId := gs_settleTimerId g |})
             w in
  let w := cancelSettle w in
  let w := updateAutoContinueGate chatId targetIndex [] w in
  let w := log (LogGenerationStarted chatId targetIndex) w in
  Controller.onGenerationStarted w.

(** The arrow function passed to [setTimeout] in [onGenerationEnded]; it
    captured [seq], [chatId] and [targetIndex]. *)
Definition settleCallback (seq : nat) (chatId : jsstring) (targetIndex : nat)
  (w : World) : World :=
  let w := updSession (setSettleTimerId None) w in
  if negb (gs_seq (generationSession w) =? seq) then w
  else
    let settledContext := getContext in
    let settledChatId := chatIdOf settledContext in
    if negb (jsstring_eqb settledChatId chatId) then w
    else
      let settledText :=
        stringOf (readAssistantTextAt (ctx_chat settledContext) targetIndex) in
      evaluate chatId targetIndex settledText w.

(** [onGenerationEnded] *)
Definition onGenerationEnded (w : World) : World :=
  let context := getContext in
  let chatId := chatIdOf context in
  let targetIndex :=
    match gs_targetIndex (generationSession w) with
    | Some t =>
        if opt_jsstring_eqb (gs_chatId (generationSession w)) (Some chatId)
        then t
        else match computeTargetAssistantIndex (ctx_chat context) with
             | Some i => i
             | None => 0
             end
    | None =>
        match computeTargetAssistantIndex (ctx_chat context) with
        | Some i => i
        | None => 0
        end
    end in
  let w := updSession
             (fun g => {| gs_seq := gs_seq g;
                          gs_chatId := Some chatId;
                          gs_targetIndex := Some targetIndex;
                          gs_isGenerating := false;
                          gs_settleTimerId := gs_settleTimerId g |})
             w in
  match readAssistantTextAt (ctx_chat context) targetIndex with
  | Some textAtTarget =>
      let w := cancelSettle w in
      evaluate chatId targetIndex textAtTarget w
  | None =>
      let seq := gs_seq (generationSession w) in
      let w := cancelSettle w in
      let (id, w) :=
        schedule (SettleCallback seq chatId targetIndex) SETTLE_DELAY_MS w in
      let w := updSession (setSettleTimerId (Some id)) w in
      log (LogNoAssistantMessage chatId targetIndex SETTLE_DELAY_MS) w
  end.

(** The guards of [onCharacterMessageRendered]: the slot and text that are
    evaluated, or [None] when the notification is dropped.  [messageId] is
    [Number(messageId)]. *)
Definition renderedSlot (messageId : number)
  : option (jsstring * nat * jsstring) :=
  let context := getContext in
  match ctx_chat context with
  | None => None
  | Some chat =>
      match isInteger messageId with
      | None => None
      | Some id =>
          if (id <? 0)%Z || (Z.of_nat (length chat) <=? id)%Z then None
          else
            match findLatestAssistantMessage (Some chat) with
            | None => None
            | Some (latestIndex, _) =>
                if negb (Z.of_nat latestIndex =? id)%Z then None
                else
                  match nth_error chat (Z.to_nat id) with
                  | Some (Some message) =>
                      if is_system message || is_user message then None
                      else Some (chatIdOf context, Z.to_nat id,
                                 stringOf (mes message))
                  | _ => None
                  end
            end
      end
  end.

(** [onCharacterMessageRendered(messageId)] *)
Definition onCharacterMessageRendered (messageId : number) (w : World)
  : World :=
  match renderedSlot messageId with
  | None => w
  | Some (chatId, id, messageText) =>
      let w :=
        if opt_jsstring_eqb (gs_chatId (generationSession w)) (Some chatId)
           && match gs_targetIndex (generationSession w) with
              | Some t => t =? id
              | None => false
              end
        then updSession (setSessionIsGenerating false) (cancelSettle w)
        else w in
      evaluate chatId id messageText w
  end.

(** [notifyManualRegenerate] *)
Definition notifyManualRegenerate (w : World) : World :=
  Controller.onManualRegenerate getSettings w.

(** [shouldBlockAutoContinueTimeskipSend]: the answer ([true] blocks) and
    the world it leaves. *)
Definition shouldBlockAutoContinueTimeskipSend (attempt : SendAttempt)
  (w : World) : bool * World :=
  if isTrusted attempt then (false, w)
  else if negb (isAutoContinueTimeskipSendAttempt (sendText attempt)
                  (autoContinueSettings attempt)) then (false, w)
  else if gs_isGenerating (generationSession w)
          || match gs_settleTimerId (generationSession w) with
             | Some _ => true
             | None => false
             end then (true, w)
  else if isEmpty (stringOf (gate_messageKey (autoContinueGate w)))
  then (false, w)
  else
    let context := getContext in
    let chatId := chatIdOf context in
    if negb (opt_jsstring_eqb (gate_chatId (autoContinueGate w)) (Some chatId))
    then (false, w)
    else
      let w :=
        match gate_assistantIndex (autoContinueGate w) with
        | Some assistantIndex =>
            let assistantText :=
              stringOf
                (readAssistantTextAt (ctx_chat context) assistantIndex) in
            updateAutoContinueGate chatId assistantIndex assistantText w
        | None => w
        end in
      if negb (gate_assistantValid (autoContinueGate w)) then (true, w)
      else if opt_jsstring_eqb
                (gate_consumedForMessageKey (autoContinueGate w))
                (gate_messageKey (autoContinueGate w)) then (true, w)
      else
        (false,
         updGate
           (fun g => {| gate_chatId := gate_chatId g;
                        gate_assistantIndex := gate_assistantIndex g;
                        gate_messageKey := gate_messageKey g;
                        gate_assistantValid := gate_assistantValid g;
                        gate_consumedForMessageKey := gate_messageKey g |})
           w).

End Deps.

End Runtime.

(* ================================================================== *)
(** * Time: timers becoming due and firing *)
(* ================================================================== *)

Module Machine.

(** The due timer with the least [timer_at], the oldest among equals. *)
Fixpoint earliestDue (now : nat) (ts : list Timer) : option Timer :=
  match ts with
  | [] => None
  | t :: ts' =>
      match earliestDue now ts' with
      | None => if timer_at t <=? now then Some t else None
      | Some t' =>
          if (timer_at t <=? now) && (timer_at t <=? timer_at t')
          then Some t else Some t'
      end
  end.

(** The clock moves on by [ms]. *)
Definition advance (ms : nat) (w : World) : World :=
  updScheduler
    (fun s => {| nowMs := nowMs s + ms; nextId := nextId s;
                 timers := timers s |})
    w.

(** What one run of the system is exposed to: direct calls on the
    controller, the clock moving on, and the scheduler firing a due
    timer. *)
Inductive Action :=
| GenerationStarted
| GenerationEnded (event : Controller.GenerationEndedEvent)
| UserMessageSent
| ChatChanged
| ManualRegenerate
| Advance (ms : nat)
| FireDue.

Section Deps.

Variable getSettings : RawSettings.
Variable getContext : Runtime.Context.
Variable requestRegenerate : Host.

(** The scheduler calls a timer's function; an exception leaving it would
    end in the scheduler. *)
Definition runCallback (fn : Callback) (w : World) : World :=
  match fn with
  | RetryCallback messageKey attempt =>
      fst (Controller.retryCallback getSettings requestRegenerate
             messageKey attempt w)
  | SettleCallback seq chatId targetIndex =>
      Runtime.settleCallback getSettings getContext seq chatId targetIndex w
  end.

(** The scheduler fires the earliest due timer, if there is one: the timer
    leaves the scheduler, then its function runs. *)
Definition fireDue (w : World) : World :=
  match earliestDue (nowMs (scheduler w)) (timers (scheduler w)) with
  | None => w
  | Some t => runCallback (timer_fn t) (unschedule (timer_id t) w)
  end.

Definition step (a : Action) (w : World) : World :=
  match a with
  | GenerationStarted => Controller.onGenerationStarted w
  | GenerationEnded event => Controller.onGenerationEnded getSettings event w
  | UserMessageSent => Controller.onUserMessageSent w
  | ChatChanged => Controller.onChatChanged w
  | ManualRegenerate => Controller.onManualRegenerate getSettings w
  | Advance ms => advance ms w
  | FireDue => fireDue w
  end.

Definition run (actions : list Action) (w : World) : World :=
  fold_left (fun w a => step a w) actions w.

End Deps.

(** [GenerationEnded] for the slot [key] with the text [text]. *)
Definition ended (key text : jsstring) : Action :=
  GenerationEnded {| Controller.messageKey := VString key;
                     Controller.messageText := VString text |}.

(** One round of a persistently invalid reply: the evaluation, then [wait]
    milliseconds, then the scheduler serving what is due. *)
Definition round (key : jsstring) (r : jsstring * nat) : list Action :=
  [ended key (fst r); Advance (snd r); FireDue].

Definition rounds (key : jsstring) (rs : list (jsstring * nat)) : list Action :=
  flat_map (round key) rs.

(** The clock readings at the end of each round, for a start at [t]. *)
Fixpoint roundEnds (t : nat) (waits : list nat) : list nat :=
  match waits with
  | [] => []
  | d :: waits' => (t + d) :: roundEnds (t + d) waits'
  end.

(** The clock readings at the start of each round, for a start at [t]. *)
Fixpoint roundStarts (t : nat) (waits : list nat) : list nat :=
  match waits with
  | [] => []
  | d :: waits' => t :: roundStarts (t + d) waits'
  end.

(** An action of a run in which the slot [key] stays invalid: an evaluation
    of [key] with invalid text, or time passing. *)
Definition keepsInvalid (key : jsstring) (a : Action) : bool :=
  match a with
  | GenerationEnded event =>
      match Controller.messageKey event, Controller.messageText event with
      | VString k, VString text =>
          jsstring_eqb k key && negb (Core.hasValidZhengwenTagString text)
      | _, _ => false
      end
  | Advance _ | FireDue => true
  | _ => false
  end.

(** An action that is neither [UserMessageSent] nor [ChatChanged]. *)
Definition keepsSuppression (a : Action) : bool :=
  match a with
  | UserMessageSent | ChatChanged => false
  | _ => true
  end.

(** A regenerate action that leaves the retry bookkeeping and the timers
    alone when it is invoked from the retry timer (where no retry is
    pending any more); it may still throw, log, or flag a generation as
    started. *)
Definition hostKeepsRetryState (h : Host) : Prop :=
  forall w, pendingTimerId (controller w) = None ->
    let w' := fst (h w) in
    disposed (controller w') = disposed (controller w) /\
    pendingTimerId (controller w') = None /\
    retryCount (controller w') = retryCount (controller w) /\
    lastMessageKey (controller w') = lastMessageKey (controller w) /\
    suppressedByManualRegen (controller w')
      = suppressedByManualRegen (controller w) /\
    scheduler w' = scheduler w /\
    regenerateCalls w' = regenerateCalls w.

(** Hosts of the test suite: a plain click, a click that emits
    GENERATION_STARTED synchronously, and a click that throws. *)
Definition clickQuiet : Host := fun w => (w, None).
Definition clickStartsGeneration : Host :=
  fun w => (Controller.onGenerationStarted w, None).
Definition clickThrows (err : Exn) : Host := fun w => (w, Some err).

(** Send attempts reaching the gate one after the other, each with the
    context current at that moment; the answers, oldest first. *)
Fixpoint gateRun (attempts : list (Runtime.Context * Runtime.SendAttempt))
  (w : World) : list bool * World :=
  match attempts with
  | [] => ([], w)
  | (context, attempt) :: rest =>
      let (blocked, w') :=
        Runtime.shouldBlockAutoContinueTimeskipSend context attempt w in
      let (answers, w'') := gateRun rest w' in
      (blocked :: answers, w'')
  end.

(** A programmatic send that the gate classifies as timeskip-style. *)
Definition classified (attempt : Runtime.SendAttempt) : bool :=
  negb (Runtime.isTrusted attempt)
  && Runtime.isAutoContinueTimeskipSendAttempt (Runtime.sendText attempt)
       (Runtime.autoContinueSettings attempt).

(** The text the gate reads at slot [(chatId, index)] in [context], and
    whether the context is that conversation. *)
Definition textAtSlot (index : nat) (context : Runtime.Context) : jsstring :=
  Runtime.stringOf
    (Runtime.readAssistantTextAt (Runtime.ctx_chat context) index).

Definition inConversation (chatId : jsstring) (context : Runtime.Context)
  : bool :=
  jsstring_eqb (Runtime.chatIdOf context) chatId.

(** The gate observes the slot [(chatId, index)] and has not let a send
    through for it; no generation is in flight and no settle is pending. *)
Definition gateObserves (chatId : jsstring) (index : nat) (w : World) : Prop :=
  gate_chatId (autoContinueGate w) = Some chatId /\
  gate_assistantIndex (autoContinueGate w) = Some index /\
  gate_messageKey (autoContinueGate w)
    = Some (Runtime.makeMessageKey chatId index) /\
  gs_isGenerating (generationSession w) = false /\
  gs_settleTimerId (generationSession w) = None.

Definition notConsumed (w : World) : Prop :=
  opt_jsstring_eqb (gate_consumedForMessageKey (autoContinueGate w))
    (gate_messageKey (autoContinueGate w)) = false.

(** What holds of the controller while one slot stays invalid and nothing
    but evaluations of it and the passing of time happens: it is neither
    disposed nor suppressed, it remembers no other slot, the retry count is
    within the budget, at most one timer exists and it is the pending retry
    of this slot, and every retry counted has either been made or is that
    pending one. *)
Definition retryInvariant (key : jsstring) (N : nat) (w : World) : Prop :=
  disposed (controller w) = false /\
  suppressedByManualRegen (controller w) = false /\
  (lastMessageKey (controller w) = Some key \/
   (lastMessageKey (controller w) = None /\
    retryCount (controller w) = 0 /\
    pendingTimerId (controller w) = None)) /\
  retryCount (controller w) <= N /\
  match pendingTimerId (controller w) with
  | None =>
      timers (scheduler w) = [] /\
      length (regenerateCalls w) = retryCount (controller w)
  | Some id =>
      (exists at_ attempt,
         timers (scheduler w)
         = [{| timer_id := id; timer_at := at_;
               timer_fn := RetryCallback key attempt |}]) /\
      S (length (regenerateCalls w)) = retryCount (controller w)
  end.

(** ** Reading of "the latest reply-type entry" *)

(** A reply entry: neither a user nor a side-channel entry. *)
Definition isReply (e : option Runtime.Message) : Prop :=
  exists m, e = Some m /\ Runtime.is_user m = false
            /\ Runtime.is_system m = false.

(** An entry the backward scans skip: a side-channel entry or a hole. *)
Definition isSkipped (e : option Runtime.Message) : Prop :=
  e = None \/ exists m, e = Some m /\ Runtime.is_system m = true.

(** Index [n] holds a reply and nothing but skipped entries follow it. *)
Definition latestReplyAt (chat : list (option Runtime.Message)) (n : nat)
  : Prop :=
  (exists e, nth_error chat n = Some e /\ isReply e) /\
  forall j e, n < j -> nth_error chat j = Some e -> isSkipped e.

(** The conditions under which a "content rendered at index N"
    notification may be taken up. *)
Definition renderedAccepted (context : Runtime.Context) (messageId : number)
  : Prop :=
  exists chat n,
    Runtime.ctx_chat context = Some chat /\
    isInteger messageId = Some (Z.of_nat n) /\
    n < length chat /\
    latestReplyAt chat n.

End Machine.

(* ================================================================== *)
(** * Sample data, after the repository's end-to-end tests *)
(* ================================================================== *)

Module Samples.

Import Runtime.

Definition settingsOf (maxRetries cooldownMs : Z) (stopOnManualRegen : bool)
  : RawSettings :=
  {| raw_enabled := VBool true;
     raw_maxRetries := Finite (inject_Z maxRetries);
     raw_cooldownMs := Finite (inject_Z cooldownMs);
     raw_stopOnManualRegen := VBool stopOnManualRegen |}.

Definition userSays (text : jsstring) : option Message :=
  Some {| is_user := true; is_system := false; mes := Some text |}.

Definition assistantSays (text : jsstring) : option Message :=
  Some {| is_user := false; is_system := false; mes := Some text |}.

Definition chatA (chat : list (option Message)) : Context :=
  {| ctx_chatId := Some (str "chat-a"); ctx_chat := Some chat |}.

Definition chatB (chat : list (option Message)) : Context :=
  {| ctx_chatId := Some (str "chat-b"); ctx_chat := Some chat |}.

(** The slot [chat-a:1]. *)
Definition slotA1 : jsstring := makeMessageKey (str "chat-a") 1.

Definition userOnly : Context := chatA [userSays (str "hi")].

Definition invalidReply : Context :=
  chatA [userSays (str "hi"); assistantSays (str "no tag")].

Definition validReply : Context :=
  chatA [userSays (str "hi"); assistantSays (str "<game>ok</game>")].

(** An old reply, then the user's new message. *)
Definition supersededReply : Context :=
  chatA [assistantSays (str "old assistant (invalid)");
         userSays (str "new user message")].

(** The option of the cooperating automation: two CJK code units. *)
Definition continueOption : jsstring := [0x7EE7; 0x7EED]%N.

Definition continueSettings : AutoContinueSettings :=
  {| ac_enabled := VBool true;
     ac_autoContinue := VBool true;
     ac_selectedOption := Some continueOption;
     ac_timeskipOptions := Some [Some continueOption] |}.

Definition programmaticContinue : SendAttempt :=
  {| isTrusted := false;
     sendText := Some continueOption;
     autoContinueSettings := Some continueSettings |}.

Definition userContinue : SendAttempt :=
  {| isTrusted := true;
     sendText := Some continueOption;
     autoContinueSettings := Some continueSettings |}.

Definition programmaticOther : SendAttempt :=
  {| isTrusted := false;
     sendText := Some (str "hello");
     autoContinueSettings := Some continueSettings |}.

End Samples.

(* ================================================================== *)
(** * Properties of the validity predicate *)
(* ================================================================== *)

Section StringFacts.

Lemma jsstring_eqb_eq (a b : jsstring) : jsstring_eqb a b = true <-> a = b.
Proof.
  revert b; induction a as [|x a IH]; intros [|y b]; simpl;
    try (split; [discriminate | congruence]); try tauto.
  rewrite andb_true_iff, N.eqb_eq, IH. split.
  - intros [-> ->]; reflexivity.
  - intros E; injection E; auto.
Qed.

Lemma jsstring_eqb_refl (a : jsstring) : jsstring_eqb a a = true.
Proof. apply jsstring_eqb_eq; reflexivity. Qed.

Lemma jsstring_eqb_neq (a b : jsstring) : jsstring_eqb a b = false <-> a <> b.
Proof.
  rewrite <- jsstring_eqb_eq. destruct (jsstring_eqb a b); split; congruence.
Qed.

Lemma trimStart_nil (s : jsstring) :
  trimStart s = [] <-> forallb isWhiteSpace s = true.
Proof.
  induction s as [|c s IH]; simpl; [tauto|].
  destruct (isWhiteSpace c); simpl; [exact IH|].
  split; discriminate.
Qed.

Lemma trimStart_head (s : jsstring) c t :
  trimStart s = c :: t -> isWhiteSpace c = false.
Proof.
  induction s as [|x s IH]; simpl; [discriminate|].
  destruct (isWhiteSpace x) eqn:E; [exact IH|].
  intros H; injection H as -> _; exact E.
Qed.

Lemma forallb_rev {A} (f : A -> bool) (l : list A) :
  forallb f (rev l) = forallb f l.
Proof.
  induction l as [|x l IH]; simpl; [reflexivity|].
  rewrite forallb_app, IH; simpl. rewrite andb_true_r, andb_comm; reflexivity.
Qed.

(** A string trims to nothing exactly when it is all white space. *)
Lemma trim_nil (s : jsstring) :
  trim s = [] <-> forallb isWhiteSpace s = true.
Proof.
  unfold trim, trimEnd. split.
  - intros H.
    assert (H1 : trimStart (rev (trimStart s)) = []).
    { destruct (trimStart (rev (trimStart s))) as [|c0 l]; [reflexivity|].
      simpl in H. destruct (rev l); discriminate. }
    apply trimStart_nil in H1. rewrite forallb_rev in H1.
    destruct (trimStart s) as [|c t] eqn:E.
    + apply trimStart_nil; exact E.
    + apply trimStart_head in E. simpl in H1. rewrite E in H1. discriminate.
  - intros H. apply trimStart_nil in H. rewrite H. reflexivity.
Qed.

Lemma trim_length_pos (s : jsstring) :
  (0 <? length (trim s)) = true <-> trim s <> [].
Proof.
  destruct (trim s); simpl; split; try congruence; intros; try discriminate.
  reflexivity.
Qed.

End StringFacts.

Section CoreFacts.

Import Core.

Lemma matchLiteral_spec (lit s rest : jsstring) :
  matchLiteral lit s = Some rest <-> s = lit ++ rest.
Proof.
  revert s; induction lit as [|x lit IH]; intros s; simpl.
  - split; congruence.
  - destruct s as [|y s]; [split; discriminate|].
    destruct (N.eqb_spec x y) as [->|Hne].
    + rewrite IH. split; [intros ->; reflexivity | intros E; injection E; auto].
    + split; [discriminate | intros E; injection E; congruence].
Qed.

Lemma matchLiteral_app (lit rest : jsstring) :
  matchLiteral lit (lit ++ rest) = Some rest.
Proof. apply matchLiteral_spec; reflexivity. Qed.

(** The lazy capture stops at the first occurrence of the closing
    literal. *)
Lemma matchLazy_sound (close s inner rest : jsstring) :
  matchLazy close s = Some (inner, rest) ->
  s = inner ++ close ++ rest /\
  forall a b, s = a ++ close ++ b -> length inner <= length a.
Proof.
  revert inner rest; induction s as [|c s IH]; intros inner rest; simpl.
  - destruct (matchLiteral close []) eqn:E; [|discriminate].
    intros H; injection H as <- <-. apply matchLiteral_spec in E.
    split; [exact E | intros; simpl; lia].
  - destruct (matchLiteral close (c :: s)) eqn:E.
    + intros H; injection H as <- <-. apply matchLiteral_spec in E.
      split; [exact E | intros; simpl; lia].
    + destruct (matchLazy close s) as [[i r]|] eqn:E'; [|discriminate].
      intros H; injection H as <- <-.
      destruct (IH _ _ eq_refl) as [Hs Hfirst]. split.
      * simpl; f_equal; exact Hs.
      * intros [|x a] b Hab.
        -- simpl in Hab. apply (proj2 (matchLiteral_spec _ _ _)) in Hab.
           congruence.
        -- simpl in Hab. injection Hab as _ Hab.
           simpl. apply le_n_S. eapply Hfirst; exact Hab.
Qed.

Lemma matchLazy_None (close s : jsstring) :
  matchLazy close s = None -> forall a b, s <> a ++ close ++ b.
Proof.
  induction s as [|c s IH]; simpl.
  - destruct (matchLiteral close []) eqn:E; [discriminate|].
    intros _ [|x a] b Hab; [|discriminate].
    simpl in Hab. apply (proj2 (matchLiteral_spec _ _ _)) in Hab. congruence.
  - destruct (matchLiteral close (c :: s)) eqn:E; [discriminate|].
    destruct (matchLazy close s) as [[i r]|] eqn:E'; [discriminate|].
    intros _ [|x a] b Hab.
    + simpl in Hab. apply (proj2 (matchLiteral_spec _ _ _)) in Hab. congruence.
    + simpl in Hab. injection Hab as _ Hab. exact (IH eq_refl _ _ Hab).
Qed.

Lemma app_same_length {A} (a b c d : list A) :
  a ++ b = c ++ d -> length a = length c -> a = c /\ b = d.
Proof.
  revert c; induction a as [|x a IH]; intros [|y c]; simpl; try discriminate.
  - auto.
  - intros E L. injection E as -> E. injection L as L.
    destruct (IH _ E L) as [-> ->]. auto.
Qed.

Lemma matchLazy_complete (close inner rest : jsstring) :
  (forall a b, inner ++ close ++ rest = a ++ close ++ b ->
               length inner <= length a) ->
  matchLazy close (inner ++ close ++ rest) = Some (inner, rest).
Proof.
  intros Hfirst.
  destruct (matchLazy close (inner ++ close ++ rest)) as [[i r]|] eqn:E.
  - destruct (matchLazy_sound _ _ _ _ E) as [Hs Hmin].
    pose proof (Hmin _ _ eq_refl) as H1.
    pose proof (Hfirst _ _ Hs) as H2.
    symmetry in Hs.
    destruct (app_same_length _ _ _ _ Hs) as [-> Hr]; [lia|].
    apply app_inv_head in Hr. subst r. reflexivity.
  - exfalso. exact (matchLazy_None _ _ E _ _ eq_refl).
Qed.

(** One alternative matches exactly at the front of a tag pair, and
    captures its inner text. *)
Lemma matchTag_spec (name s inner rest : jsstring) :
  matchTag name s = Some (inner, rest) <->
  (s = openTag name ++ inner ++ closeTag name ++ rest /\
   forall a b, inner ++ closeTag name ++ rest = a ++ closeTag name ++ b ->
               length inner <= length a).
Proof.
  unfold matchTag. split.
  - destruct (matchLiteral (openTag name) s) as [afterOpen|] eqn:E;
      [|discriminate].
    apply matchLiteral_spec in E. intros H.
    destruct (matchLazy_sound _ _ _ _ H) as [Hs Hfirst]. subst afterOpen.
    split; [exact E|]. intros a b Hab. apply (Hfirst a b). exact Hab.
  - intros [-> Hfirst]. rewrite matchLiteral_app.
    apply matchLazy_complete; exact Hfirst.
Qed.

Lemma pairAtFront_matchTag (s name inner : jsstring) :
  pairAtFront s name inner <->
  exists rest, matchTag name s = Some (inner, rest).
Proof.
  unfold pairAtFront.
  split; intros [r H]; exists r; apply matchTag_spec; exact H.
Qed.

End CoreFacts.

Section SearchFacts.

Import Core.

Lemma matchHere_sound (s name inner rest : jsstring) :
  matchHere s = Some (name, inner, rest) ->
  In name tagNames /\ matchTag name s = Some (inner, rest).
Proof.
  unfold matchHere, tagNames; simpl.
  destruct (matchTag zhengwen s) as [[i r]|] eqn:E1.
  - intros H; injection H as <- <- <-. auto.
  - destruct (matchTag game s) as [[i r]|] eqn:E2; [|discriminate].
    intros H; injection H as <- <- <-. auto.
Qed.

Lemma matchHere_complete (s name inner rest : jsstring) :
  In name tagNames -> matchTag name s = Some (inner, rest) ->
  matchHere s = Some (name, inner, rest).
Proof.
  unfold matchHere, tagNames; simpl.
  intros [<-|[<-|[]]] H.
  - rewrite H; reflexivity.
  - destruct (matchTag zhengwen s) as [[i r]|] eqn:E1.
    + exfalso. apply matchTag_spec in H. destruct H as [-> _].
      unfold matchTag in E1. cbn in E1. discriminate.
    + rewrite H; reflexivity.
Qed.

Lemma matchHere_None (s name inner : jsstring) :
  matchHere s = None -> In name tagNames -> ~ pairAtFront s name inner.
Proof.
  intros Hnone Hin Hp. apply pairAtFront_matchTag in Hp as [rest Hp].
  rewrite (matchHere_complete _ _ _ _ Hin Hp) in Hnone. discriminate.
Qed.

Lemma whitespace_not_lt (c : char16) :
  isWhiteSpace c = true -> (60 =? c)%N = false.
Proof.
  intros H. destruct (N.eqb_spec 60 c) as [<-|]; [|reflexivity].
  vm_compute in H. discriminate.
Qed.

Lemma matchHere_whitespace (c : char16) (s : jsstring) :
  isWhiteSpace c = true -> matchHere (c :: s) = None.
Proof.
  intros H. apply whitespace_not_lt in H.
  destruct (matchHere (c :: s)) as [[[n i] r]|] eqn:E; [|reflexivity].
  apply matchHere_sound in E as [_ Ht].
  apply matchTag_spec in Ht as [Hs _].
  unfold openTag in Hs; simpl in Hs. injection Hs as Hc _.
  subst c. discriminate.
Qed.

(** No match starts inside white space: a position inside [inner ++ t] that
    admits a match lies in [t]. *)
Lemma walk_whitespace (inner t l s1 : jsstring) :
  forallb isWhiteSpace inner = true ->
  inner ++ t = l ++ s1 ->
  matchHere s1 = None \/ exists l2, t = l2 ++ s1.
Proof.
  revert l; induction inner as [|c inner IH]; intros l Hws E.
  - right. exists l. exact E.
  - simpl in Hws. apply andb_true_iff in Hws as [Hc Hws].
    destruct l as [|x l].
    + left. simpl in E. subst s1. apply matchHere_whitespace; exact Hc.
    + simpl in E. injection E as _ E. exact (IH _ Hws E).
Qed.

Ltac walk_one E l :=
  destruct l as [|? l];
  [ left; simpl in E; subst; reflexivity
  | simpl in E; injection E as _ E ].

(** A consumed pair with blank inner text hides no other match: a position
    after its first code unit that admits a match lies behind it. *)
Lemma no_match_inside (name inner rest l s1 : jsstring) :
  In name tagNames ->
  forallb isWhiteSpace inner = true ->
  l <> [] ->
  openTag name ++ inner ++ closeTag name ++ rest = l ++ s1 ->
  matchHere s1 = None \/ exists l2, rest = l2 ++ s1.
Proof.
  unfold tagNames; simpl. intros [<-|[<-|[]]] Hws Hl E.
  - destruct l as [|x0 l]; [congruence|]. cbn in E. injection E as _ E.
    do 3 walk_one E l.
    destruct (walk_whitespace _ _ _ _ Hws E) as [H|[l2 E2]]; [auto|].
    clear E. cbn in E2. symmetry in E2.
    do 5 walk_one E2 l2.
    right. exists l2. symmetry; exact E2.
  - destruct l as [|x0 l]; [congruence|]. cbn in E. injection E as _ E.
    do 5 walk_one E l.
    destruct (walk_whitespace _ _ _ _ Hws E) as [H|[l2 E2]]; [auto|].
    clear E. cbn in E2. symmetry in E2.
    do 7 walk_one E2 l2.
    right. exists l2. symmetry; exact E2.
Qed.

(** What [search] finds is the first position that admits a match. *)
Lemma search_None (total : nat) (s : jsstring) :
  search total s = None ->
  forall pre s1, s = pre ++ s1 -> matchHere s1 = None.
Proof.
  induction s as [|c s IH]; simpl.
  - destruct (matchHere []) as [[[n i] r]|] eqn:E; [discriminate|].
    intros _ [|x pre] s1 H; [|discriminate]. simpl in H; subst s1. exact E.
  - destruct (matchHere (c :: s)) as [[[n i] r]|] eqn:E; [discriminate|].
    intros H [|x pre] s1 Hs.
    + simpl in Hs; subst s1. exact E.
    + simpl in Hs. injection Hs as _ Hs. exact (IH H _ _ Hs).
Qed.

Lemma search_Some (total : nat) (s : jsstring) (m : Match) :
  search total s = Some m ->
  exists pre rest,
    s = pre ++ openTag (m_group1 m) ++ m_group2 m
            ++ closeTag (m_group1 m) ++ rest /\
    matchHere (openTag (m_group1 m) ++ m_group2 m
                 ++ closeTag (m_group1 m) ++ rest)
      = Some (m_group1 m, m_group2 m, rest) /\
    m_lastIndex m = total - length rest /\
    (forall pre1 s1, s = pre1 ++ s1 -> length pre1 < length pre ->
                     matchHere s1 = None).
Proof.
  induction s as [|c s IH].
  - simpl. discriminate.
  - intros H. simpl in H.
    destruct (matchHere (c :: s)) as [[[n i] r]|] eqn:E.
    + injection H as <-.
      destruct (matchHere_sound _ _ _ _ E) as [_ Ht].
      apply matchTag_spec in Ht as [Hs _].
      exists [], r. cbn [m_group1 m_group2 m_lastIndex].
      split; [exact Hs|]. split; [rewrite <- Hs; exact E|].
      split; [reflexivity|].
      intros ? ? _ Hlt; simpl in Hlt; lia.
    + destruct (IH H) as (pre & rest & Hs & Hm & Hl & Hfirst).
      exists (c :: pre), rest. repeat split; auto.
      * simpl; f_equal; exact Hs.
      * intros [|x pre1] s1 H1 Hlt.
        -- simpl in H1; subst s1; exact E.
        -- simpl in H1. injection H1 as _ H1. simpl in Hlt.
           apply (Hfirst _ _ H1). lia.
Qed.

End SearchFacts.

Section ValidityFacts.

Import Core.

Lemma skipn_suffix (p rest : jsstring) :
  skipn (length (p ++ rest) - length rest) (p ++ rest) = rest.
Proof.
  rewrite length_app, Nat.add_sub.
  induction p as [|x p IH]; simpl; [reflexivity | exact IH].
Qed.

Lemma app_split_le {A} (p1 s1 p2 s2 : list A) :
  p1 ++ s1 = p2 ++ s2 -> length p1 <= length p2 ->
  exists l, p2 = p1 ++ l /\ s1 = l ++ s2.
Proof.
  revert p2; induction p1 as [|x p1 IH]; intros p2 E L; simpl in *.
  - exists p2. auto.
  - destruct p2 as [|y p2]; simpl in *; [lia|].
    injection E as -> E. destruct (IH _ E) as (l & -> & ->); [lia|].
    exists l. auto.
Qed.

Lemma hasNonEmptyPair_behind (pre rest : jsstring) :
  hasNonEmptyPair rest -> hasNonEmptyPair (pre ++ rest).
Proof.
  intros (p & s & n & i & -> & Hin & Hp & Ht).
  exists (pre ++ p), s, n, i. rewrite app_assoc. auto.
Qed.

(** Skipping a match with blank inner text loses no pair. *)
Lemma pair_skip_blank (s pre name inner rest : jsstring) :
  s = pre ++ openTag name ++ inner ++ closeTag name ++ rest ->
  matchHere (openTag name ++ inner ++ closeTag name ++ rest)
    = Some (name, inner, rest) ->
  trim inner = [] ->
  (forall pre1 s1, s = pre1 ++ s1 -> length pre1 < length pre ->
                   matchHere s1 = None) ->
  (hasNonEmptyPair s <-> hasNonEmptyPair rest).
Proof.
  intros Hs Hm Hblank Hfirst. split.
  - intros (pre1 & s1 & n1 & i1 & Hs1 & Hin1 & Hp1 & Ht1).
    apply pairAtFront_matchTag in Hp1 as [r1 Hp1].
    pose proof (matchHere_complete _ _ _ _ Hin1 Hp1) as Hm1.
    destruct (Nat.lt_ge_cases (length pre1) (length pre)) as [Hlt|Hge].
    + rewrite (Hfirst _ _ Hs1 Hlt) in Hm1. discriminate.
    + rewrite Hs in Hs1.
      destruct (app_split_le _ _ _ _ Hs1 Hge) as (l & -> & Hl).
      destruct l as [|x l].
      * change ([] ++ s1) with s1 in Hl. rewrite Hl in Hm. rewrite Hm1 in Hm.
        injection Hm as _ -> _. contradiction.
      * destruct (matchHere_sound _ _ _ _ Hm) as [Hin _].
        apply trim_nil in Hblank.
        destruct (no_match_inside name inner rest (x :: l) s1 Hin Hblank)
          as [Hnone|[l2 ->]]; [discriminate | exact Hl | congruence |].
        exists l2, s1, n1, i1. repeat split; auto.
        apply pairAtFront_matchTag. exists r1; exact Hp1.
  - intros H. rewrite Hs.
    replace (pre ++ openTag name ++ inner ++ closeTag name ++ rest)
      with ((pre ++ openTag name ++ inner ++ closeTag name) ++ rest)
      by (rewrite <- !app_assoc; reflexivity).
    apply hasNonEmptyPair_behind; exact H.
Qed.

(** The loop always comes to an answer within its bound, and the answer is
    whether a pair with non-blank inner text lies at or after
    [lastIndex]. *)
Lemma validLoop_spec (fuel : nat) (text : jsstring) (lastIndex : nat) :
  lastIndex <= length text ->
  length text - lastIndex < fuel ->
  exists b, validLoop fuel text lastIndex = Some b /\
            (b = true <-> hasNonEmptyPair (skipn lastIndex text)).
Proof.
  revert lastIndex; induction fuel as [|fuel IH]; intros i Hi Hfuel; [lia|].
  simpl. unfold exec.
  destruct (Nat.ltb_spec (length text) i) as [Hlt|_]; [lia|].
  destruct (search (length text) (skipn i text)) as [m|] eqn:Es.
  - destruct (search_Some _ _ _ Es) as (pre & rest & Hs & Hm & Hl & Hfirst).
    destruct (0 <? length (trim (m_group2 m))) eqn:Et.
    + exists true. split; [reflexivity|]. split; [intros _|reflexivity].
      destruct (matchHere_sound _ _ _ _ Hm) as [Hin Ht].
      exists pre, (openTag (m_group1 m) ++ m_group2 m
                     ++ closeTag (m_group1 m) ++ rest),
        (m_group1 m), (m_group2 m).
      repeat split; auto.
      * apply pairAtFront_matchTag. exists rest; exact Ht.
      * apply trim_length_pos; exact Et.
    + assert (Hblank : trim (m_group2 m) = []).
      { destruct (trim (m_group2 m)); [reflexivity | discriminate]. }
      assert (Htext : text = (firstn i text ++ pre ++ openTag (m_group1 m)
                                ++ m_group2 m ++ closeTag (m_group1 m))
                               ++ rest).
      { rewrite <- (firstn_skipn i text) at 1. rewrite Hs.
        rewrite <- !app_assoc. reflexivity. }
      assert (Hlen : length rest < length (skipn i text)).
      { rewrite Hs. rewrite !length_app. unfold openTag. simpl. lia. }
      rewrite length_skipn in Hlen.
      assert (Hskip : skipn (m_lastIndex m) text = rest).
      { rewrite Hl. rewrite Htext at 1 2. apply skipn_suffix. }
      destruct (IH (m_lastIndex m)) as (b & Hb & Hspec); [lia | lia |].
      exists b. split; [exact Hb|].
      rewrite Hspec, Hskip. symmetry.
      eapply pair_skip_blank; eauto.
  - exists false. split; [reflexivity|]. split; [discriminate|].
    intros (pre & s1 & n & inner & Hs & Hin & Hp & _). exfalso.
    exact (matchHere_None _ _ _ (search_None _ _ Es _ _ Hs) Hin Hp).
Qed.

(** The predicate on strings is the search for a tag pair with non-blank
    inner text. *)
Lemma hasValidZhengwenTagString_spec (text : jsstring) :
  hasValidZhengwenTagString text = true <-> hasNonEmptyPair text.
Proof.
  unfold hasValidZhengwenTagString.
  destruct (validLoop_spec (S (length text)) text 0) as (b & -> & Hb);
    [lia | lia |].
  exact Hb.
Qed.

Lemma hasValidZhengwenTagString_false (text : jsstring) :
  hasValidZhengwenTagString text = false <-> ~ hasNonEmptyPair text.
Proof.
  rewrite <- hasValidZhengwenTagString_spec.
  destruct (hasValidZhengwenTagString text); split; congruence.
Qed.

(** The loop never runs out of its bound. *)
Lemma validLoop_total (text : jsstring) :
  validLoop (S (length text)) text 0 <> None.
Proof.
  destruct (validLoop_spec (S (length text)) text 0) as (b & -> & _);
    [lia | lia | discriminate].
Qed.

End ValidityFacts.

Section ValidityClaims.

Import Core.

(** The cases of the repository's own test suite. *)
Example valid_zhengwen :
  hasValidZhengwenTag
    (VString (str "x" ++ openTag zhengwen ++ str "ok" ++ closeTag zhengwen
                ++ str "y")) = true.
Proof. reflexivity. Qed.

Example valid_game :
  hasValidZhengwenTag (VString (str "x<game>ok</game>y")) = true.
Proof. reflexivity. Qed.

Example invalid_no_tag : hasValidZhengwenTag (VString (str "hello")) = false.
Proof. reflexivity. Qed.

Example invalid_blank_pair :
  hasValidZhengwenTag
    (VString (openTag zhengwen ++ [32; 32; 10; 9; 32]%N ++ closeTag zhengwen))
  = false.
Proof. reflexivity. Qed.

Example valid_second_pair :
  hasValidZhengwenTag
    (VString (openTag zhengwen ++ str " " ++ closeTag zhengwen
                ++ str "<game>good</game>")) = true.
Proof. reflexivity. Qed.

Example invalid_unmatched :
  hasValidZhengwenTag (VString (openTag zhengwen ++ str "missing close"))
  = false.
Proof. reflexivity. Qed.

Example invalid_empty : hasValidZhengwenTag (VString []) = false.
Proof. reflexivity. Qed.

(** A pair ends at the nearest closing tag: text between an opening tag and
    a later, farther closing tag does not make a pair of it. *)
Remark pair_ends_at_nearest_close :
  hasValidZhengwenTag
    (VString (openTag zhengwen ++ str " " ++ closeTag zhengwen ++ str "x"
                ++ closeTag zhengwen)) = false.
Proof. reflexivity. Qed.

(** C3.  [hasValidZhengwenTag] answers [true] exactly for a string that
    contains a tag pair of [正文] or [game] (an opening tag up to the nearest
    closing tag of the same name) whose inner text is non-empty after
    trimming; an opening tag without its closing tag makes no pair, and a
    value that is not a string is answered [false]. *)
Theorem validity_iff_nonempty_pair (v : value) :
  hasValidZhengwenTag v = true <->
  exists text, v = VString text /\ hasNonEmptyPair text.
Proof.
  destruct v as [ | | b | q | s | ]; simpl;
    try (split; [discriminate | intros (t & Ht & _); discriminate]).
  rewrite hasValidZhengwenTagString_spec. split.
  - intros H; exists s; auto.
  - intros (t & Ht & H). injection Ht as ->. exact H.
Qed.

(** The pattern does not match at the opening tag of a cross-name pair. *)
Lemma cross_pair_no_match (name other inner post : jsstring) :
  In name tagNames ->
  (forall a b, inner ++ closeTag other ++ post <> a ++ closeTag name ++ b) ->
  matchHere (openTag name ++ inner ++ closeTag other ++ post) = None.
Proof.
  intros Hin Hno.
  destruct (matchHere (openTag name ++ inner ++ closeTag other ++ post))
    as [[[n i] r]|] eqn:E; [exfalso | reflexivity].
  apply matchHere_sound in E as [Hin' Ht].
  apply matchTag_spec in Ht as [Hs _].
  unfold tagNames in Hin, Hin'; simpl in Hin, Hin'.
  destruct Hin as [<-|[<-|[]]]; destruct Hin' as [<-|[<-|[]]];
    try (cbn in Hs; discriminate);
    apply app_inv_head in Hs; exact (Hno _ _ Hs).
Qed.

(** C10.  A string in which an opening tag is closed only by the closing
    tag of the other accepted name, and which holds no same-name pair with
    non-blank inner text, is not valid: the back-reference [\1] makes the
    closing name equal the opening name, so the pattern does not match at
    the cross-name pair. *)
Theorem cross_name_pair_is_invalid (text : jsstring) :
  hasCrossPair text -> ~ hasNonEmptyPair text ->
  hasValidZhengwenTag (VString text) = false /\
  exists pre name other inner post,
    text = pre ++ openTag name ++ inner ++ closeTag other ++ post /\
    name <> other /\
    matchHere (openTag name ++ inner ++ closeTag other ++ post) = None.
Proof.
  intros (pre & name & other & inner & post & Hin & _ & Hne & Hs & Honly) Hno.
  split.
  - simpl. apply hasValidZhengwenTagString_false. exact Hno.
  - exists pre, name, other, inner, post. repeat split; auto.
    apply cross_pair_no_match; assumption.
Qed.

Lemma cross_name_pair_is_invalid_witness :
  let text := openTag zhengwen ++ str "text" ++ closeTag game in
  hasCrossPair text /\ ~ hasNonEmptyPair text /\
  hasValidZhengwenTag (VString text) = false.
Proof.
  intros text.
  assert (Hcross : hasCrossPair text).
  { exists [], zhengwen, game, (str "text"), [].
    repeat split.
    - simpl; auto.
    - simpl; auto.
    - discriminate.
    - apply matchLazy_None. reflexivity. }
  assert (Hno : ~ hasNonEmptyPair text).
  { apply hasValidZhengwenTagString_false. reflexivity. }
  split; [exact Hcross|]. split; [exact Hno|].
  exact (proj1 (cross_name_pair_is_invalid text Hcross Hno)).
Defined.

End ValidityClaims.

(* ================================================================== *)
(** * Properties of the Auto-Continue gate and of the resets *)
(* ================================================================== *)

Section GateFacts.

Import Runtime Machine.

Lemma isTrue_spec (v : value) : isTrue v = true <-> v = VBool true.
Proof.
  destruct v as [ | | [|] | | | ]; simpl; split; congruence.
Qed.

Lemma isFalse_spec (v : value) : isFalse v = false <-> v <> VBool false.
Proof.
  destruct v as [ | | [|] | | | ]; simpl; split; congruence.
Qed.

Lemma opt_jsstring_eqb_eq (a b : option jsstring) :
  opt_jsstring_eqb a b = true <-> a = b.
Proof.
  destruct a, b; simpl; try (split; congruence).
  rewrite jsstring_eqb_eq. split; congruence.
Qed.

Lemma opt_jsstring_eqb_refl (a : option jsstring) : opt_jsstring_eqb a a = true.
Proof. apply opt_jsstring_eqb_eq; reflexivity. Qed.

(** What the classification of a send attempt requires. *)
Lemma timeskip_attempt_requires (text : option jsstring)
  (settings : option AutoContinueSettings) :
  isAutoContinueTimeskipSendAttempt text settings = true ->
  exists s,
    settings = Some s /\
    ac_enabled s <> VBool false /\
    ac_autoContinue s = VBool true /\
    (trim (stringOf text) = trim (stringOf (ac_selectedOption s)) \/
     exists options opt,
       ac_timeskipOptions s = Some options /\ In opt options /\
       trim (stringOf text) = trim (stringOf opt)).
Proof.
  unfold isAutoContinueTimeskipSendAttempt.
  destruct settings as [s|]; [|discriminate].
  destruct (isFalse (ac_enabled s)) eqn:Een; [discriminate|].
  destruct (isTrue (ac_autoContinue s)) eqn:Eac; [|discriminate]. simpl.
  destruct (isEmpty (trim (stringOf text))); [discriminate|].
  intros H. exists s. split; [reflexivity|].
  split; [apply isFalse_spec; exact Een|].
  split; [apply isTrue_spec; exact Eac|].
  destruct (negb (isEmpty (trim (stringOf (ac_selectedOption s))))
            && jsstring_eqb (trim (stringOf text))
                 (trim (stringOf (ac_selectedOption s)))) eqn:Esel.
  - left. apply andb_true_iff in Esel as [_ Esel].
    apply jsstring_eqb_eq; exact Esel.
  - right. destruct (ac_timeskipOptions s) as [options|]; [|discriminate].
    apply existsb_exists in H as (opt & Hin & Heq).
    exists options, opt. repeat split; auto.
    apply jsstring_eqb_eq; exact Heq.
Qed.

(** C7.  A send the user made directly ([isTrusted]) is never blocked; a
    send is classified as timeskip-style only if the cooperating automation
    is enabled (its [enabled] flag is not [false]; the code counts a
    missing flag as enabled), its auto-continue is on, and the trimmed
    message equals the trimmed selected option or a trimmed entry of the
    option list; a send that is not classified is allowed, and the gate is
    left as it was. *)
Theorem gate_only_blocks_classified_sends (context : Context)
  (attempt : SendAttempt) (w : World) :
  (isTrusted attempt = true ->
   shouldBlockAutoContinueTimeskipSend context attempt w = (false, w)) /\
  (isAutoContinueTimeskipSendAttempt (sendText attempt)
     (autoContinueSettings attempt) = true ->
   exists s,
     autoContinueSettings attempt = Some s /\
     ac_enabled s <> VBool false /\
     ac_autoContinue s = VBool true /\
     (trim (stringOf (sendText attempt))
        = trim (stringOf (ac_selectedOption s)) \/
      exists options opt,
        ac_timeskipOptions s = Some options /\ In opt options /\
        trim (stringOf (sendText attempt)) = trim (stringOf opt))) /\
  (isAutoContinueTimeskipSendAttempt (sendText attempt)
     (autoContinueSettings attempt) = false ->
   shouldBlockAutoContinueTimeskipSend context attempt w = (false, w)).
Proof.
  split; [|split].
  - intros H. unfold shouldBlockAutoContinueTimeskipSend. rewrite H.
    reflexivity.
  - apply timeskip_attempt_requires.
  - intros H. unfold shouldBlockAutoContinueTimeskipSend. rewrite H.
    destruct (isTrusted attempt); reflexivity.
Qed.

Lemma gate_only_blocks_classified_sends_witness :
  (isTrusted Samples.userContinue = true /\
   shouldBlockAutoContinueTimeskipSend Samples.invalidReply
     Samples.userContinue initialWorld = (false, initialWorld)) /\
  (isAutoContinueTimeskipSendAttempt (sendText Samples.programmaticContinue)
     (autoContinueSettings Samples.programmaticContinue) = true /\
   exists s,
     autoContinueSettings Samples.programmaticContinue = Some s /\
     ac_enabled s <> VBool false /\ ac_autoContinue s = VBool true) /\
  (isAutoContinueTimeskipSendAttempt (sendText Samples.programmaticOther)
     (autoContinueSettings Samples.programmaticOther) = false /\
   shouldBlockAutoContinueTimeskipSend Samples.invalidReply
     Samples.programmaticOther initialWorld = (false, initialWorld)).
Proof.
  split; [|split].
  - split; [reflexivity|].
    apply (proj1 (gate_only_blocks_classified_sends Samples.invalidReply
                    Samples.userContinue initialWorld)).
    reflexivity.
  - split; [reflexivity|].
    destruct (proj1 (proj2 (gate_only_blocks_classified_sends
                              Samples.invalidReply
                              Samples.programmaticContinue initialWorld))
                eq_refl) as (s & Hs & Hen & Hac & _).
    exists s. auto.
  - split; [reflexivity|].
    apply (proj2 (proj2 (gate_only_blocks_classified_sends
                           Samples.invalidReply
                           Samples.programmaticOther initialWorld))).
    reflexivity.
Defined.

End GateFacts.

Section GateOnce.

Import Runtime Machine.

Lemma makeMessageKey_not_empty (chatId : jsstring) (index : nat) :
  isEmpty (makeMessageKey chatId index) = false.
Proof. unfold makeMessageKey. destruct chatId; reflexivity. Qed.

(** Feeding the gate the slot it already observes only refreshes the
    validity. *)
Lemma updateAutoContinueGate_same_slot (chatId : jsstring) (index : nat)
  (text : jsstring) (w : World) :
  gate_messageKey (autoContinueGate w) = Some (makeMessageKey chatId index) ->
  updateAutoContinueGate chatId index text w
  = updGate
      (fun g => {| gate_chatId := gate_chatId g;
                   gate_assistantIndex := gate_assistantIndex g;
                   gate_messageKey := gate_messageKey g;
                   gate_assistantValid :=
                     Core.hasValidZhengwenTag (VString text);
                   gate_consumedForMessageKey :=
                     gate_consumedForMessageKey g |})
      w.
Proof.
  intros H. unfold updateAutoContinueGate. rewrite H.
  rewrite opt_jsstring_eqb_refl. reflexivity.
Qed.

(** One classified attempt in the observed conversation, with the tracker
    idle: the answer and what becomes of the gate. *)
Lemma shouldBlock_observed (chatId : jsstring) (index : nat)
  (context : Context) (attempt : SendAttempt) (w : World) :
  gateObserves chatId index w ->
  classified attempt = true ->
  inConversation chatId context = true ->
  exists w',
    shouldBlockAutoContinueTimeskipSend context attempt w
    = (negb (Core.hasValidZhengwenTagString (textAtSlot index context))
       || opt_jsstring_eqb (gate_consumedForMessageKey (autoContinueGate w))
            (gate_messageKey (autoContinueGate w)),
       w') /\
    gateObserves chatId index w' /\
    (Core.hasValidZhengwenTagString (textAtSlot index context) = false ->
     gate_consumedForMessageKey (autoContinueGate w')
     = gate_consumedForMessageKey (autoContinueGate w)) /\
    (notConsumed w' ->
     notConsumed w /\
     Core.hasValidZhengwenTagString (textAtSlot index context) = false).
Proof.
  intros (Hc & Hi & Hk & Hg & Hs) Hcl Hconv.
  unfold classified in Hcl. apply andb_true_iff in Hcl as [Htr Hcl].
  apply negb_true_iff in Htr.
  unfold inConversation in Hconv. apply jsstring_eqb_eq in Hconv.
  unfold shouldBlockAutoContinueTimeskipSend.
  rewrite Htr, Hcl, Hg, Hs, Hk. simpl negb. simpl orb. cbv iota.
  simpl stringOf. rewrite makeMessageKey_not_empty.
  rewrite Hc, Hconv, opt_jsstring_eqb_refl, Hi. simpl negb. cbv iota.
  rewrite (updateAutoContinueGate_same_slot chatId index _ w Hk).
  fold (textAtSlot index context).
  unfold notConsumed, gateObserves. simpl.
  destruct (Core.hasValidZhengwenTagString (textAtSlot index context));
    simpl; rewrite ?Hk.
  - destruct (opt_jsstring_eqb
                (gate_consumedForMessageKey (autoContinueGate w))
                (Some (makeMessageKey chatId index))) eqn:Econs.
    + eexists; split; [reflexivity|]. simpl. rewrite ?Hk, ?Econs.
      repeat split; auto; discriminate.
    + eexists; split; [reflexivity|]. simpl.
      rewrite ?Hk, ?opt_jsstring_eqb_refl.
      repeat split; auto; discriminate.
  - eexists; split; [reflexivity|]. simpl. rewrite ?Hk.
    repeat split; auto.
Qed.

Lemma gateRun_app (l1 l2 : list (Context * SendAttempt)) (w : World) :
  gateRun (l1 ++ l2) w
  = (fst (gateRun l1 w) ++ fst (gateRun l2 (snd (gateRun l1 w))),
     snd (gateRun l2 (snd (gateRun l1 w)))).
Proof.
  revert w; induction l1 as [|[c a] l1 IH]; intros w; simpl.
  - destruct (gateRun l2 w); reflexivity.
  - destruct (shouldBlockAutoContinueTimeskipSend c a w) as [b w1].
    rewrite IH. destruct (gateRun l1 w1) as [a1 w2]. simpl.
    destruct (gateRun l2 w2); reflexivity.
Qed.

(** While the text stays invalid every attempt is blocked and nothing is
    consumed. *)
Lemma gateRun_invalid (chatId : jsstring) (index : nat)
  (attempts : list (Context * SendAttempt)) (w : World) :
  gateObserves chatId index w ->
  forallb (fun p => classified (snd p) && inConversation chatId (fst p))
    attempts = true ->
  forallb (fun p => negb (Core.hasValidZhengwenTagString
                            (textAtSlot index (fst p)))) attempts = true ->
  fst (gateRun attempts w) = repeat true (length attempts) /\
  gateObserves chatId index (snd (gateRun attempts w)) /\
  gate_consumedForMessageKey (autoContinueGate (snd (gateRun attempts w)))
  = gate_consumedForMessageKey (autoContinueGate w) /\
  gate_messageKey (autoContinueGate (snd (gateRun attempts w)))
  = gate_messageKey (autoContinueGate w).
Proof.
  revert w; induction attempts as [|[c a] l IH]; intros w Hobs Hok Hinv.
  - simpl. auto.
  - simpl in Hok, Hinv. apply andb_true_iff in Hok as [Hok1 Hok].
    apply andb_true_iff in Hok1 as [Hcl Hconv].
    apply andb_true_iff in Hinv as [Hinv1 Hinv].
    apply negb_true_iff in Hinv1.
    destruct (shouldBlock_observed chatId index c a w Hobs Hcl Hconv)
      as (w' & Hsb & Hobs' & Hkeep & _).
    simpl. rewrite Hsb. rewrite Hinv1 in *. simpl.
    destruct (IH w' Hobs' Hok Hinv) as (Ha & Hobs'' & Hcons & Hkey).
    destruct (gateRun l w') as [answers w'']. simpl in *.
    split; [rewrite Ha; reflexivity|]. split; [exact Hobs''|]. split.
    + rewrite Hcons. apply Hkeep; reflexivity.
    + rewrite Hkey. destruct Hobs as (_ & _ & -> & _).
      destruct Hobs' as (_ & _ & -> & _). reflexivity.
Qed.

(** Once the slot is consumed every attempt is blocked. *)
Lemma gateRun_consumed (chatId : jsstring) (index : nat)
  (attempts : list (Context * SendAttempt)) (w : World) :
  gateObserves chatId index w ->
  ~ notConsumed w ->
  forallb (fun p => classified (snd p) && inConversation chatId (fst p))
    attempts = true ->
  fst (gateRun attempts w) = repeat true (length attempts).
Proof.
  revert w; induction attempts as [|[c a] l IH]; intros w Hobs Hcons Hok.
  - reflexivity.
  - simpl in Hok. apply andb_true_iff in Hok as [Hok1 Hok].
    apply andb_true_iff in Hok1 as [Hcl Hconv].
    destruct (shouldBlock_observed chatId index c a w Hobs Hcl Hconv)
      as (w' & Hsb & Hobs' & _ & Hback).
    simpl. rewrite Hsb.
    assert (Hc : opt_jsstring_eqb
                   (gate_consumedForMessageKey (autoContinueGate w))
                   (gate_messageKey (autoContinueGate w)) = true).
    { unfold notConsumed in Hcons.
      destruct (opt_jsstring_eqb _ _); congruence. }
    rewrite Hc, orb_true_r.
    assert (Hcons' : ~ notConsumed w') by (intros H; apply Hcons, Hback, H).
    specialize (IH w' Hobs' Hcons' Hok).
    destruct (gateRun l w') as [answers w'']. simpl in *.
    rewrite IH. reflexivity.
Qed.

(** C2.  Over an unchanged observed slot (the tracker idle, every attempt
    made in the observed conversation, nothing let through yet): while the
    text at the slot is invalid every classified attempt is blocked; the
    first classified attempt that finds the text valid is allowed and
    marks the slot consumed; every later classified attempt is blocked,
    whatever the text is by then. *)
Theorem gate_allows_exactly_once (chatId : jsstring) (index : nat)
  (invalids : list (Context * SendAttempt)) (valid : Context * SendAttempt)
  (rest : list (Context * SendAttempt)) (w : World) :
  gateObserves chatId index w ->
  notConsumed w ->
  forallb (fun p => classified (snd p) && inConversation chatId (fst p))
    (invalids ++ valid :: rest) = true ->
  forallb (fun p => negb (Core.hasValidZhengwenTagString
                            (textAtSlot index (fst p)))) invalids = true ->
  Core.hasValidZhengwenTagString (textAtSlot index (fst valid)) = true ->
  fst (gateRun (invalids ++ valid :: rest) w)
  = repeat true (length invalids) ++ false :: repeat true (length rest) /\
  gate_consumedForMessageKey
    (autoContinueGate (snd (gateRun (invalids ++ [valid]) w)))
  = Some (makeMessageKey chatId index).
Proof.
  intros Hobs Hfresh Hok Hinv Hvalid.
  rewrite forallb_app in Hok. apply andb_true_iff in Hok as [Hok1 Hok2].
  simpl in Hok2. apply andb_true_iff in Hok2 as [Hokv Hok3].
  apply andb_true_iff in Hokv as [Hcl Hconv].
  destruct (gateRun_invalid chatId index invalids w Hobs Hok1 Hinv)
    as (Ha & Hobs1 & Hcons1 & Hkey1).
  assert (Hfresh1 : notConsumed (snd (gateRun invalids w))).
  { unfold notConsumed in *. rewrite Hcons1, Hkey1. exact Hfresh. }
  destruct valid as [c a]. simpl in Hcl, Hconv, Hvalid.
  destruct (shouldBlock_observed chatId index c a _ Hobs1 Hcl Hconv)
    as (w2 & Hsb & Hobs2 & _ & Hback).
  rewrite Hvalid in Hsb, Hback. unfold notConsumed in Hfresh1.
  rewrite Hfresh1 in Hsb. simpl in Hsb.
  assert (Hcons2 : ~ notConsumed w2).
  { intros H. destruct (Hback H) as [_ Hf]. discriminate. }
  split.
  - rewrite gateRun_app. cbn [fst snd]. rewrite Ha. f_equal.
    simpl. rewrite Hsb.
    pose proof (gateRun_consumed chatId index rest w2 Hobs2 Hcons2 Hok3) as Hr.
    destruct (gateRun rest w2) as [answers w3]. simpl in *.
    rewrite Hr. reflexivity.
  - rewrite gateRun_app. cbn [fst snd]. simpl. rewrite Hsb. simpl.
    destruct Hobs2 as (_ & _ & Hk2 & _).
    unfold notConsumed in Hcons2. rewrite Hk2 in Hcons2.
    destruct (opt_jsstring_eqb
                (gate_consumedForMessageKey (autoContinueGate w2))
                (Some (makeMessageKey chatId index))) eqn:E; [|congruence].
    apply opt_jsstring_eqb_eq in E. exact E.
Qed.

Lemma gate_allows_exactly_once_witness :
  let w := Runtime.onGenerationEnded (Samples.settingsOf 10 0 false)
             Samples.invalidReply initialWorld in
  let blockedTwice := [(Samples.invalidReply, Samples.programmaticContinue);
                       (Samples.invalidReply, Samples.programmaticContinue)] in
  let later := [(Samples.validReply, Samples.programmaticContinue);
                (Samples.invalidReply, Samples.programmaticContinue)] in
  gateObserves (str "chat-a") 1 w /\ notConsumed w /\
  fst (gateRun (blockedTwice
                  ++ (Samples.validReply, Samples.programmaticContinue)
                  :: later) w)
  = [true; true; false; true; true].
Proof.
  intros w blockedTwice later.
  assert (Hobs : gateObserves (str "chat-a") 1 w)
    by (repeat split; reflexivity).
  assert (Hfresh : notConsumed w) by reflexivity.
  split; [exact Hobs|]. split; [exact Hfresh|].
  exact (proj1 (gate_allows_exactly_once (str "chat-a") 1 blockedTwice
                  (Samples.validReply, Samples.programmaticContinue) later w
                  Hobs Hfresh eq_refl eq_refl eq_refl)).
Defined.

End GateOnce.

(* ================================================================== *)
(** * Properties of the generation-session tracker *)
(* ================================================================== *)

(** Case analysis on an innermost scrutinee of the goal. *)
Ltac break_match :=
  match goal with
  | |- context [match ?x with _ => _ end] =>
      lazymatch x with
      | context [match _ with _ => _ end] => fail
      | _ => destruct x eqn:?
      end
  end.

Ltac unfold_controller :=
  unfold Controller.onGenerationEnded, Controller.onManualRegenerate,
    Controller.onGenerationStarted, Controller.onUserMessageSent,
    Controller.onChatChanged, Controller.reset, Controller.cancelPending,
    schedule, unschedule, setTimeout.

Ltac unfold_runtime :=
  unfold Runtime.onMessageSent, Runtime.onChatChanged,
    Runtime.resetGenerationSession, Runtime.resetGenerationOnly,
    Runtime.cancelSettle, Runtime.evaluate, Runtime.updateAutoContinueGate.

Ltac project_world :=
  cbn [controller generationSession autoContinueGate scheduler logs
       regenerateCalls updController updSession updGate updScheduler log
       noteRegenerateCall fst snd].

Section TrackerFacts.

Import Runtime Machine.

(** The controller's [onGenerationEnded] touches neither the tracker nor
    the gate. *)
Lemma controller_ended_keeps_session (raw : RawSettings)
  (event : Controller.GenerationEndedEvent) (w : World) :
  generationSession (Controller.onGenerationEnded raw event w)
  = generationSession w.
Proof.
  unfold_controller. repeat (break_match; project_world); reflexivity.
Qed.

Lemma controller_ended_keeps_gate (raw : RawSettings)
  (event : Controller.GenerationEndedEvent) (w : World) :
  autoContinueGate (Controller.onGenerationEnded raw event w)
  = autoContinueGate w.
Proof.
  unfold_controller. repeat (break_match; project_world); reflexivity.
Qed.

Lemma evaluate_keeps_session (raw : RawSettings) (chatId : jsstring)
  (index : nat) (text : jsstring) (w : World) :
  generationSession (evaluate raw chatId index text w) = generationSession w.
Proof.
  unfold evaluate. rewrite controller_ended_keeps_session.
  unfold updateAutoContinueGate. repeat (break_match; project_world);
    reflexivity.
Qed.

Lemma cancelSettle_clears (w : World) :
  gs_settleTimerId (generationSession (cancelSettle w)) = None.
Proof.
  unfold cancelSettle. destruct (gs_settleTimerId (generationSession w)) eqn:E;
    [reflexivity | exact E].
Qed.

(** C6, as the code has it.  A "user sent a new message" notification resets
    the retry state and the generation session (its sequence number moves
    on) but leaves the gate exactly as it was; only a "conversation
    changed" notification puts the gate back to its initial values. *)
Theorem message_sent_keeps_gate (w : World) :
  autoContinueGate (onMessageSent w) = autoContinueGate w /\
  (retryCount (controller (onMessageSent w)) = 0 /\
   lastMessageKey (controller (onMessageSent w)) = None /\
   suppressedByManualRegen (controller (onMessageSent w)) = false /\
   isGenerating (controller (onMessageSent w)) = false /\
   pendingTimerId (controller (onMessageSent w)) = None) /\
  (gs_seq (generationSession (onMessageSent w))
   = gs_seq (generationSession w) + 1 /\
   gs_chatId (generationSession (onMessageSent w)) = None /\
   gs_targetIndex (generationSession (onMessageSent w)) = None /\
   gs_isGenerating (generationSession (onMessageSent w)) = false /\
   gs_settleTimerId (generationSession (onMessageSent w)) = None) /\
  autoContinueGate (onChatChanged w) = initialGate.
Proof.
  unfold_runtime. unfold_controller.
  destruct w as [[d ig [pt|] rc lk sp lm lc lv] [sq ci ti sg [st|]] a s l r];
    simpl; repeat split; reflexivity.
Qed.

(** C6, as the specification has it, fails: after a user message the gate
    still observes the slot and still holds its last validity. *)
Lemma message_sent_resets_gate_counterexample :
  let w := onGenerationEnded (Samples.settingsOf 2 1000 false)
             Samples.invalidReply initialWorld in
  gate_messageKey (autoContinueGate (onMessageSent w)) = Some Samples.slotA1 /\
  gate_assistantValid (autoContinueGate (onMessageSent w)) = false /\
  autoContinueGate (onMessageSent w) <> initialGate.
Proof.
  split; [reflexivity|]. split; [reflexivity|].
  intros H. apply (f_equal gate_assistantValid) in H. discriminate.
Qed.

Lemma cancelSettle_keeps_clock (w : World) :
  nowMs (scheduler (cancelSettle w)) = nowMs (scheduler w) /\
  gs_seq (generationSession (cancelSettle w)) = gs_seq (generationSession w).
Proof.
  unfold cancelSettle. destruct (gs_settleTimerId (generationSession w));
    split; reflexivity.
Qed.

(** C8, as the code has it.  The settle callback carries the sequence
    number the tracker had when [onGenerationEnded] scheduled it.  When it
    fires it first clears the tracker's settle-timer handle; if the
    tracker's sequence number has moved on, or the conversation is no
    longer the captured one, it does nothing else: no evaluation, no other
    change.  Otherwise, finding the target slot still empty, it evaluates
    the slot with the empty string. *)
Theorem settle_callback_guarded (raw : RawSettings) (context : Context)
  (seq : nat) (chatId : jsstring) (targetIndex : nat) (w : World) :
  (gs_seq (generationSession w) <> seq ->
   settleCallback raw context seq chatId targetIndex w
   = updSession (setSettleTimerId None) w) /\
  (gs_seq (generationSession w) = seq -> chatIdOf context <> chatId ->
   settleCallback raw context seq chatId targetIndex w
   = updSession (setSettleTimerId None) w) /\
  (gs_seq (generationSession w) = seq -> chatIdOf context = chatId ->
   readAssistantTextAt (ctx_chat context) targetIndex = None ->
   settleCallback raw context seq chatId targetIndex w
   = evaluate raw chatId targetIndex []
       (updSession (setSettleTimerId None) w)) /\
  (forall id,
     gs_settleTimerId (generationSession (onGenerationEnded raw context w))
     = Some id ->
     gs_seq (generationSession (onGenerationEnded raw context w))
     = gs_seq (generationSession w) /\
     exists t,
       In {| timer_id := id;
             timer_at := nowMs (scheduler w) + SETTLE_DELAY_MS;
             timer_fn := SettleCallback (gs_seq (generationSession w))
                           (chatIdOf context) t |}
          (timers (scheduler (onGenerationEnded raw context w)))).
Proof.
  split; [|split; [|split]].
  - intros H. unfold settleCallback. project_world. simpl.
    apply Nat.eqb_neq in H. rewrite H. reflexivity.
  - intros H Hc. unfold settleCallback. project_world. simpl.
    apply Nat.eqb_eq in H. rewrite H. simpl.
    apply jsstring_eqb_neq in Hc. rewrite Hc. reflexivity.
  - intros H Hc Ht. unfold settleCallback. project_world. simpl.
    apply Nat.eqb_eq in H. rewrite H. simpl.
    rewrite Hc, jsstring_eqb_refl, Ht. reflexivity.
  - intros id. unfold onGenerationEnded.
    match goal with
    | |- context [readAssistantTextAt ?c ?t] =>
        generalize t; intros target;
        destruct (readAssistantTextAt c target) as [text|]
    end.
    + rewrite evaluate_keeps_session, cancelSettle_clears. discriminate.
    + unfold schedule, setTimeout. project_world.
      cbn [setSettleTimerId gs_seq gs_settleTimerId timers nowMs nextId].
      match goal with
      | |- context [cancelSettle ?x] =>
          destruct (cancelSettle_keeps_clock x) as [Hnow Hseq];
          rewrite ?Hnow, ?Hseq
      end.
      project_world. cbn [gs_seq nowMs].
      intros H; injection H as <-.
      split; [reflexivity|]. exists target.
      apply in_or_app. right. left. reflexivity.
Qed.

Lemma settle_callback_guarded_witness :
  let raw := Samples.settingsOf 2 1000 false in
  let w := onGenerationEnded raw Samples.userOnly
             (onGenerationStarted Samples.userOnly initialWorld) in
  (gs_seq (generationSession w) <> 0 /\
   settleCallback raw Samples.userOnly 0 (str "chat-a") 1 w
   = updSession (setSettleTimerId None) w) /\
  (gs_seq (generationSession w) = 1 /\
   chatIdOf Samples.userOnly = str "chat-a" /\
   readAssistantTextAt (ctx_chat Samples.userOnly) 1 = None /\
   settleCallback raw Samples.userOnly 1 (str "chat-a") 1 w
   = evaluate raw (str "chat-a") 1 []
       (updSession (setSettleTimerId None) w)).
Proof.
  intros raw w.
  assert (Hstale : gs_seq (generationSession w) <> 0) by discriminate.
  split.
  - split; [exact Hstale|].
    exact (proj1 (settle_callback_guarded raw Samples.userOnly 0
                    (str "chat-a") 1 w) Hstale).
  - split; [reflexivity|]. split; [reflexivity|]. split; [reflexivity|].
    exact (proj1 (proj2 (proj2 (settle_callback_guarded raw Samples.userOnly
                                  1 (str "chat-a") 1 w)))
             eq_refl eq_refl eq_refl).
Defined.

(** C8, as the specification has it, fails twice over.  Generation ends
    with no reply (a settle is scheduled under sequence number 0), a new
    generation starts and ends with no reply again (a second settle is
    scheduled under sequence number 1).  Should the first callback still
    fire, it is stale, yet it clears the handle of the second settle,
    which stays in the scheduler: a change of state.  And a callback that
    is not stale, finding no reply at its slot in a context of another
    conversation, evaluates nothing. *)
Lemma stale_settle_is_noop_counterexample :
  let raw := Samples.settingsOf 2 1000 false in
  let w := onGenerationEnded raw Samples.userOnly
             (onGenerationStarted Samples.userOnly
                (onGenerationEnded raw Samples.userOnly initialWorld)) in
  let elsewhere := Samples.chatB [Samples.userSays (str "hi")] in
  (gs_seq (generationSession w) <> 0 /\
   gs_settleTimerId (generationSession w) = Some 2 /\
   timers (scheduler w)
   = [{| timer_id := 2; timer_at := 250;
         timer_fn := SettleCallback 1 (str "chat-a") 1 |}] /\
   gs_settleTimerId
     (generationSession
        (settleCallback raw Samples.userOnly 0 (str "chat-a") 1 w)) = None /\
   settleCallback raw Samples.userOnly 0 (str "chat-a") 1 w <> w) /\
  (gs_seq (generationSession w) = 1 /\
   readAssistantTextAt (ctx_chat elsewhere) 1 = None /\
   settleCallback raw elsewhere 1 (str "chat-a") 1 w
   <> evaluate raw (str "chat-a") 1 []
        (updSession (setSettleTimerId None) w)).
Proof.
  split.
  - split; [discriminate|]. split; [reflexivity|]. split; [reflexivity|].
    split; [reflexivity|].
    intros H.
    apply (f_equal (fun x => gs_settleTimerId (generationSession x))) in H.
    discriminate.
  - split; [reflexivity|]. split; [reflexivity|].
    intros H.
    apply (f_equal (fun x => retryCount (controller x))) in H.
    discriminate.
Qed.

End TrackerFacts.

Section RenderedFacts.

Import Runtime Machine.

(** What the backward scan of [findLatestAssistantMessage] returns is a
    reply, and everything between it and the start of the scan was
    skipped. *)
Lemma findLatestFrom_spec (chat : list (option Message)) (k i : nat)
  (text : jsstring) :
  findLatestFrom chat k = Some (i, text) ->
  i < k /\
  (exists m, nth_error chat i = Some (Some m) /\ is_system m = false /\
             is_user m = false /\ mes m = Some text) /\
  forall j e, i < j -> j < k -> nth_error chat j = Some e -> isSkipped e.
Proof.
  induction k as [|k IH]; simpl; [discriminate|].
  destruct (nth_error chat k) as [[m|]|] eqn:Ek.
  - destruct (is_system m) eqn:Esys.
    + intros H. destruct (IH H) as (Hlt & Hm & Hskip).
      split; [lia|]. split; [exact Hm|].
      intros j e Hij Hjk Hj. destruct (Nat.eq_dec j k) as [->|Hne].
      * rewrite Ek in Hj. injection Hj as <-. right. exists m. auto.
      * apply (Hskip j e); auto. lia.
    + destruct (is_user m) eqn:Eusr; [discriminate|].
      destruct (mes m) as [t|] eqn:Emes; [|discriminate].
      intros H; injection H as <- <-.
      split; [lia|]. split; [exists m; auto|].
      intros j e Hij Hjk; lia.
  - intros H. destruct (IH H) as (Hlt & Hm & Hskip).
    split; [lia|]. split; [exact Hm|].
    intros j e Hij Hjk Hj. destruct (Nat.eq_dec j k) as [->|Hne].
    + rewrite Ek in Hj. injection Hj as <-. left. reflexivity.
    + apply (Hskip j e); auto. lia.
  - intros H. destruct (IH H) as (Hlt & Hm & Hskip).
    split; [lia|]. split; [exact Hm|].
    intros j e Hij Hjk Hj. destruct (Nat.eq_dec j k) as [->|Hne].
    + rewrite Ek in Hj. discriminate.
    + apply (Hskip j e); auto. lia.
Qed.

(** A notification that gets past the guards names an index in bounds that
    holds the latest reply. *)
Lemma renderedSlot_accepted (context : Context) (messageId : number)
  (chatId : jsstring) (n : nat) (text : jsstring) :
  renderedSlot context messageId = Some (chatId, n, text) ->
  renderedAccepted context messageId /\
  isInteger messageId = Some (Z.of_nat n) /\ chatId = chatIdOf context.
Proof.
  unfold renderedSlot, renderedAccepted.
  destruct (ctx_chat context) as [chat|]; [|discriminate].
  destruct (isInteger messageId) as [id|]; [|discriminate].
  destruct ((id <? 0)%Z || (Z.of_nat (length chat) <=? id)%Z) eqn:Eb;
    [discriminate|].
  apply orb_false_iff in Eb as [Eneg Elen].
  apply Z.ltb_ge in Eneg. apply Z.leb_gt in Elen.
  unfold findLatestAssistantMessage.
  destruct (findLatestFrom chat (length chat)) as [[li lt]|] eqn:El;
    [|discriminate].
  destruct (Z.eqb_spec (Z.of_nat li) id) as [Heq|]; [|discriminate].
  simpl negb. cbv iota.
  destruct (nth_error chat (Z.to_nat id)) as [[m|]|] eqn:En; try discriminate.
  destruct (is_system m || is_user m) eqn:Ef; [discriminate|].
  intros H; injection H as <- <- <-.
  assert (Hli : Z.to_nat id = li) by lia. rewrite Hli in *.
  split; [|split; [f_equal; lia | reflexivity]].
  exists chat, li. split; [reflexivity|]. split; [f_equal; lia|].
  destruct (findLatestFrom_spec _ _ _ _ El)
    as (Hlt & (m' & Hm' & Hs & Hu & _) & Hskip).
  split; [exact Hlt|]. split.
  - exists (Some m'). split; [exact Hm'|]. exists m'. auto.
  - intros j e Hj He. apply (Hskip j e Hj); [|exact He].
    apply nth_error_Some. congruence.
Qed.

Lemma rendered_dropped (raw : RawSettings) (context : Context)
  (messageId : number) (w : World) :
  ~ renderedAccepted context messageId ->
  onCharacterMessageRendered raw context messageId w = w.
Proof.
  intros Hno. unfold onCharacterMessageRendered.
  destruct (renderedSlot context messageId) as [[[c n] t]|] eqn:E;
    [|reflexivity].
  exfalso. apply Hno. exact (proj1 (renderedSlot_accepted _ _ _ _ _ E)).
Qed.

(** C5.  A "content rendered at index N" notification leads to an
    evaluation only when N is an index within the conversation that holds
    a reply (neither a user nor a side-channel entry) after which only
    skipped entries follow; otherwise the handler changes nothing.  In
    particular an index out of bounds is dropped, and so is the index of a
    reply that a later entry which is not side-channel, such as a new user
    message, has superseded. *)
Theorem rendered_only_for_latest_reply (raw : RawSettings) (context : Context)
  (messageId : number) :
  (~ renderedAccepted context messageId ->
   forall w, onCharacterMessageRendered raw context messageId w = w) /\
  (forall chat id,
     ctx_chat context = Some chat -> isInteger messageId = Some id ->
     (id < 0 \/ Z.of_nat (length chat) <= id)%Z ->
     forall w, onCharacterMessageRendered raw context messageId w = w) /\
  (forall chat n j m,
     ctx_chat context = Some chat ->
     isInteger messageId = Some (Z.of_nat n) ->
     n < j -> nth_error chat j = Some (Some m) -> is_system m = false ->
     forall w, onCharacterMessageRendered raw context messageId w = w).
Proof.
  split; [|split].
  - intros Hno w. apply rendered_dropped; exact Hno.
  - intros chat id Hc Hi Hout w. apply rendered_dropped.
    intros (chat' & n & Hc' & Hi' & Hn & _).
    rewrite Hc in Hc'. injection Hc' as <-.
    rewrite Hi in Hi'. injection Hi' as ->. lia.
  - intros chat n j m Hc Hi Hj Hm Hsys w. apply rendered_dropped.
    intros (chat' & n' & Hc' & Hi' & _ & _ & Hskip).
    rewrite Hc in Hc'. injection Hc' as <-.
    rewrite Hi in Hi'. injection Hi' as Hn.
    apply Nat2Z.inj in Hn. subst n'.
    destruct (Hskip j _ Hj Hm) as [H|(m' & H & Hs)]; [discriminate|].
    injection H as <-. congruence.
Qed.

Lemma rendered_only_for_latest_reply_witness :
  let raw := Samples.settingsOf 1 0 false in
  (~ renderedAccepted Samples.supersededReply (Finite 0) /\
   onCharacterMessageRendered raw Samples.supersededReply (Finite 0)
     initialWorld = initialWorld) /\
  onCharacterMessageRendered raw Samples.supersededReply (Finite 5)
    initialWorld = initialWorld /\
  onCharacterMessageRendered raw Samples.supersededReply (Finite 0)
    (onMessageSent initialWorld) = onMessageSent initialWorld.
Proof.
  intros raw.
  assert (Hno : ~ renderedAccepted Samples.supersededReply (Finite 0)).
  { intros (chat & n & Hc & Hi & _ & _ & Hskip).
    injection Hc as <-.
    change (isInteger (Finite 0)) with (Some 0%Z) in Hi. injection Hi as Hn.
    assert (n = 0) by lia. subst n.
    destruct (Hskip 1 _ (Nat.lt_0_succ 0) eq_refl) as [H|(m & H & Hs)];
      [discriminate|].
    injection H as <-. discriminate. }
  split; [split; [exact Hno|]|split].
  - exact (proj1 (rendered_only_for_latest_reply raw Samples.supersededReply
                    (Finite 0)) Hno initialWorld).
  - apply (proj1 (proj2 (rendered_only_for_latest_reply raw
                           Samples.supersededReply (Finite 5)))
             _ 5%Z eq_refl eq_refl).
    right. simpl. lia.
  - apply (proj2 (proj2 (rendered_only_for_latest_reply raw
                           Samples.supersededReply (Finite 0)))
             _ 0 1 _ eq_refl eq_refl (Nat.lt_0_succ 0) eq_refl eq_refl).
Defined.

(** The end-to-end test: after the user's new message the old reply's
    re-render triggers nothing, the new reply's does. *)
Example rendered_new_reply_retries :
  let raw := Samples.settingsOf 1 0 false in
  let newer :=
    Samples.chatA [Samples.assistantSays (str "old assistant (invalid)");
                   Samples.userSays (str "new user message");
                   Samples.assistantSays (str "new assistant (invalid)")] in
  let w1 := onCharacterMessageRendered raw Samples.supersededReply (Finite 0)
              (onMessageSent initialWorld) in
  let w2 := fireDue raw newer clickQuiet
              (onCharacterMessageRendered raw newer (Finite 2) w1) in
  regenerateCalls (fireDue raw Samples.supersededReply clickQuiet w1) = [] /\
  length (regenerateCalls w2) = 1.
Proof. split; reflexivity. Qed.

End RenderedFacts.

(* ================================================================== *)
(** * Properties of the retry controller *)
(* ================================================================== *)

Section ControllerFrames.

Import Machine.

(** [onGenerationEnded] never invokes the regenerate action itself and
    never touches the suppression flag; it only ever schedules. *)
Lemma controller_ended_keeps_calls (raw : RawSettings)
  (event : Controller.GenerationEndedEvent) (w : World) :
  regenerateCalls (Controller.onGenerationEnded raw event w)
  = regenerateCalls w.
Proof.
  unfold_controller. repeat (break_match; project_world); reflexivity.
Qed.

Lemma controller_ended_keeps_suppression (raw : RawSettings)
  (event : Controller.GenerationEndedEvent) (w : World) :
  suppressedByManualRegen
    (controller (Controller.onGenerationEnded raw event w))
  = suppressedByManualRegen (controller w).
Proof.
  unfold_controller. repeat (break_match; project_world); reflexivity.
Qed.

Lemma cancelPending_frame (w : World) :
  regenerateCalls (Controller.cancelPending w) = regenerateCalls w /\
  suppressedByManualRegen (controller (Controller.cancelPending w))
  = suppressedByManualRegen (controller w) /\
  retryCount (controller (Controller.cancelPending w))
  = retryCount (controller w) /\
  pendingTimerId (controller (Controller.cancelPending w)) = None.
Proof.
  unfold Controller.cancelPending.
  destruct (pendingTimerId (controller w)) eqn:E; simpl; auto.
Qed.

Lemma clearTimeout_removes (id : nat) (s : Scheduler) (t : Timer) :
  In t (timers (clearTimeout id s)) -> timer_id t <> id.
Proof.
  unfold clearTimeout; simpl. intros H. apply filter_In in H as [_ H].
  apply negb_true_iff, Nat.eqb_neq in H. exact H.
Qed.


(** When its guards pass, the retry callback is: clear the handle, log the
    click, invoke the action, and log what the action threw, if
    anything. *)
Lemma retryCallback_invokes (raw : RawSettings) (host : Host)
  (key : jsstring) (attempt : nat) (w : World) :
  disposed (controller w) = false ->
  enabled (readSettings raw) = true ->
  stopOnManualRegen (readSettings raw)
  && suppressedByManualRegen (controller w) = false ->
  fst (Controller.retryCallback raw host key attempt w)
  = let r := host (noteRegenerateCall
                     (log (LogRegenClick key attempt)
                        (updController (setPendingTimerId None) w))) in
    match snd r with
    | None => fst r
    | Some err => log (LogError err) (fst r)
    end.
Proof.
  intros Hd He Hs. unfold Controller.retryCallback, Controller.tryCatch.
  project_world. cbn [disposed suppressedByManualRegen setPendingTimerId].
  rewrite Hd, He, Hs. simpl negb. cbv iota.
  destruct (host _) as [w' [err|]]; reflexivity.
Qed.

(** When one of its guards stops it, the retry callback only clears the
    handle. *)
Lemma retryCallback_suppressed (raw : RawSettings) (host : Host)
  (key : jsstring) (attempt : nat) (w : World) :
  stopOnManualRegen (readSettings raw) = true ->
  suppressedByManualRegen (controller w) = true ->
  fst (Controller.retryCallback raw host key attempt w)
  = updController (setPendingTimerId None) w.
Proof.
  intros Hs Hm. unfold Controller.retryCallback.
  project_world. cbn [disposed suppressedByManualRegen setPendingTimerId].
  rewrite Hs, Hm.
  destruct (disposed (controller w)); [reflexivity|].
  destruct (enabled (readSettings raw)); reflexivity.
Qed.

End ControllerFrames.

Ltac project_controller :=
  cbn [controller generationSession autoContinueGate scheduler logs
       regenerateCalls updController updSession updGate updScheduler log
       noteRegenerateCall fst snd
       disposed isGenerating pendingTimerId retryCount lastMessageKey
       suppressedByManualRegen loggedMaxRetriesMessageKey
       loggedCheckMessageKey loggedCheckValid
       setIsGenerating setDisposed setPendingTimerId setRetryCount
       setLastMessageKey setSuppressedByManualRegen
       setLoggedMaxRetriesMessageKey setLoggedCheck
       nowMs nextId timers].

Section RetryFailure.

Import Machine.




(** With one retry allowed and an action that always throws: the action is
    invoked once, the error is logged, and the next invalid evaluation
    finds the budget used up. *)
Example throwing_action_uses_up_budget :
  let raw := Samples.settingsOf 1 1000 false in
  let w := run raw Samples.invalidReply (clickThrows (str "boom"))
             (rounds Samples.slotA1
                [(str "no tag", 1000); (str "still invalid", 1000)])
             initialWorld in
  regenerateCalls w = [1000] /\
  retryCount (controller w) = 1 /\
  logs w = [LogCheck Samples.slotA1 false 0 1;
            LogRetryScheduled Samples.slotA1 1 1 1000;
            LogRegenClick Samples.slotA1 1;
            LogError (str "boom");
            LogMaxRetriesReached Samples.slotA1 1].
Proof. repeat split; reflexivity. Qed.

End RetryFailure.

Section ManualOverride.

Import Machine.

Lemma updateAutoContinueGate_frame (chatId : jsstring) (index : nat)
  (text : jsstring) (w : World) :
  controller (Runtime.updateAutoContinueGate chatId index text w)
  = controller w /\
  regenerateCalls (Runtime.updateAutoContinueGate chatId index text w)
  = regenerateCalls w.
Proof.
  unfold Runtime.updateAutoContinueGate.
  repeat (break_match; project_world); split; reflexivity.
Qed.

Lemma evaluate_keeps_suppression (raw : RawSettings) (chatId : jsstring)
  (index : nat) (text : jsstring) (w : World) :
  suppressedByManualRegen
    (controller (Runtime.evaluate raw chatId index text w))
  = suppressedByManualRegen (controller w) /\
  regenerateCalls (Runtime.evaluate raw chatId index text w)
  = regenerateCalls w.
Proof.
  unfold Runtime.evaluate.
  rewrite controller_ended_keeps_suppression, controller_ended_keeps_calls.
  destruct (updateAutoContinueGate_frame chatId index text w) as [-> ->].
  split; reflexivity.
Qed.

(** What a manual-override notification does when the setting is on. *)
Lemma onManualRegenerate_effect (raw : RawSettings) (w : World) :
  stopOnManualRegen (readSettings raw) = true ->
  suppressedByManualRegen (controller (Controller.onManualRegenerate raw w))
  = true /\
  retryCount (controller (Controller.onManualRegenerate raw w)) = 0 /\
  pendingTimerId (controller (Controller.onManualRegenerate raw w)) = None /\
  regenerateCalls (Controller.onManualRegenerate raw w) = regenerateCalls w /\
  forall id t,
    pendingTimerId (controller w) = Some id ->
    In t (timers (scheduler (Controller.onManualRegenerate raw w))) ->
    timer_id t <> id.
Proof.
  intros Hs. unfold Controller.onManualRegenerate, Controller.cancelPending.
  rewrite Hs. simpl negb. cbv iota. project_controller.
  destruct (pendingTimerId (controller w)) as [p|] eqn:Ep;
    project_controller; unfold unschedule; project_controller.
  - repeat split; auto. intros id t Hid Ht. injection Hid as <-.
    eapply clearTimeout_removes; exact Ht.
  - repeat split; auto. intros id t Hid; discriminate.
Qed.

(** While the suppression flag is up, no action short of a reset lowers
    it, and none invokes the regenerate action. *)
Lemma step_keeps_suppression (raw : RawSettings) (context : Runtime.Context)
  (host : Host) (a : Action) (w : World) :
  stopOnManualRegen (readSettings raw) = true ->
  suppressedByManualRegen (controller w) = true ->
  keepsSuppression a = true ->
  suppressedByManualRegen (controller (step raw context host a w)) = true /\
  regenerateCalls (step raw context host a w) = regenerateCalls w.
Proof.
  intros Hs Hm Ha. destruct a; try discriminate; simpl.
  - unfold Controller.onGenerationStarted.
    destruct (cancelPending_frame (updController (setIsGenerating true) w))
      as (-> & -> & _). split; [exact Hm | reflexivity].
  - rewrite controller_ended_keeps_suppression, controller_ended_keeps_calls.
    split; [exact Hm | reflexivity].
  - destruct (onManualRegenerate_effect raw w Hs) as (-> & _ & _ & -> & _).
    split; reflexivity.
  - split; [exact Hm | reflexivity].
  - unfold fireDue.
    destruct (earliestDue (nowMs (scheduler w)) (timers (scheduler w)))
      as [t|]; [|split; [exact Hm | reflexivity]].
    unfold runCallback. destruct (timer_fn t) as [key attempt|seq chatId idx].
    + rewrite retryCallback_suppressed; [|exact Hs|exact Hm].
      split; [exact Hm | reflexivity].
    + unfold Runtime.settleCallback. project_world.
      repeat break_match; try (split; [exact Hm | reflexivity]).
      destruct (evaluate_keeps_suppression raw chatId idx
                  (Runtime.stringOf
                     (Runtime.readAssistantTextAt
                        (Runtime.ctx_chat context) idx))
                  (updSession (Runtime.setSettleTimerId None)
                     (unschedule (timer_id t) w))) as [-> ->].
      split; [exact Hm | reflexivity].
Qed.

Lemma run_keeps_suppression (raw : RawSettings) (context : Runtime.Context)
  (host : Host) (actions : list Action) (w : World) :
  stopOnManualRegen (readSettings raw) = true ->
  suppressedByManualRegen (controller w) = true ->
  forallb keepsSuppression actions = true ->
  regenerateCalls (run raw context host actions w) = regenerateCalls w.
Proof.
  intros Hs. revert w; induction actions as [|a l IH]; intros w Hm Hl.
  - reflexivity.
  - simpl in Hl. apply andb_true_iff in Hl as [Ha Hl].
    destruct (step_keeps_suppression raw context host a w Hs Hm Ha)
      as [Hm' Hc].
    unfold run in *. simpl. rewrite (IH _ Hm' Hl). exact Hc.
Qed.

(** C4.  With [stopOnManualRegen] on, a manual-override notification sets
    the suppression flag, resets the retry count, and cancels the pending
    timer; from then on no sequence of events without [UserMessageSent] or
    [ChatChanged] invokes the regenerate action, whatever is evaluated and
    however much time passes.  Either of those two lowers the flag again.
    With [stopOnManualRegen] off the notification has no effect at all. *)
Theorem manual_override_suppresses (raw : RawSettings)
  (context : Runtime.Context) (host : Host) (w : World) :
  (stopOnManualRegen (readSettings raw) = true ->
   suppressedByManualRegen (controller (Controller.onManualRegenerate raw w))
   = true /\
   retryCount (controller (Controller.onManualRegenerate raw w)) = 0 /\
   pendingTimerId (controller (Controller.onManualRegenerate raw w)) = None /\
   (forall id t,
      pendingTimerId (controller w) = Some id ->
      In t (timers (scheduler (Controller.onManualRegenerate raw w))) ->
      timer_id t <> id) /\
   forall actions,
     forallb keepsSuppression actions = true ->
     regenerateCalls
       (run raw context host actions (Controller.onManualRegenerate raw w))
     = regenerateCalls w) /\
  (stopOnManualRegen (readSettings raw) = false ->
   Controller.onManualRegenerate raw w = w) /\
  suppressedByManualRegen (controller (Controller.onUserMessageSent w))
  = false /\
  suppressedByManualRegen (controller (Controller.onChatChanged w)) = false.
Proof.
  split; [|split; [|split]].
  - intros Hs.
    destruct (onManualRegenerate_effect raw w Hs)
      as (Hm & Hr & Hp & Hc & Ht).
    repeat split; auto.
    intros actions Ha.
    rewrite (run_keeps_suppression raw context host actions _ Hs Hm Ha).
    exact Hc.
  - intros Hs. unfold Controller.onManualRegenerate. rewrite Hs. reflexivity.
  - unfold Controller.onUserMessageSent, Controller.reset.
    match goal with
    | |- context [Controller.cancelPending ?x] =>
        destruct (cancelPending_frame x) as (_ & -> & _)
    end.
    reflexivity.
  - unfold Controller.onChatChanged, Controller.reset.
    match goal with
    | |- context [Controller.cancelPending ?x] =>
        destruct (cancelPending_frame x) as (_ & -> & _)
    end.
    reflexivity.
Qed.

Lemma manual_override_suppresses_witness :
  let on := Samples.settingsOf 5 0 true in
  let off := Samples.settingsOf 5 0 false in
  let w := run on Samples.invalidReply clickQuiet
             [ended Samples.slotA1 (str "invalid")] initialWorld in
  let later := [ended Samples.slotA1 (str "invalid"); Advance 0; FireDue;
                GenerationStarted;
                ended Samples.slotA1 (str "still invalid"); Advance 5;
                FireDue; ManualRegenerate; FireDue] in
  (stopOnManualRegen (readSettings on) = true /\
   pendingTimerId (controller w) = Some 1 /\
   timers (scheduler (Controller.onManualRegenerate on w)) = [] /\
   regenerateCalls
     (run on Samples.invalidReply clickQuiet later
        (Controller.onManualRegenerate on w)) = []) /\
  (stopOnManualRegen (readSettings off) = false /\
   Controller.onManualRegenerate off w = w).
Proof.
  intros on off w later. split.
  - split; [reflexivity|]. split; [reflexivity|]. split; [reflexivity|].
    destruct (proj1 (manual_override_suppresses on Samples.invalidReply
                       clickQuiet w) eq_refl) as (_ & _ & _ & _ & H).
    exact (H later eq_refl).
  - split; [reflexivity|].
    exact (proj1 (proj2 (manual_override_suppresses off Samples.invalidReply
                           clickQuiet w)) eq_refl).
Defined.

(** The end-to-end test: nothing is retried after a manual regenerate, and
    retries resume after the next user message. *)
Example manual_override_until_user_message :
  let on := Samples.settingsOf 5 0 true in
  let newer := Runtime.makeMessageKey (str "chat-a") 2 in
  let w1 := run on Samples.invalidReply clickQuiet
              [ManualRegenerate; ended Samples.slotA1 (str "invalid");
               Advance 0; FireDue] initialWorld in
  let w2 := run on Samples.invalidReply clickQuiet
              [UserMessageSent; ended newer (str "invalid again");
               Advance 0; FireDue] w1 in
  regenerateCalls w1 = [] /\ length (regenerateCalls w2) = 1.
Proof. split; reflexivity. Qed.

End ManualOverride.

(** Projections of updated records, in the goal and in the hypotheses. *)
Ltac project_all :=
  cbn [controller generationSession autoContinueGate scheduler logs
       regenerateCalls updController updSession updGate updScheduler log
       noteRegenerateCall fst snd
       disposed isGenerating pendingTimerId retryCount lastMessageKey
       suppressedByManualRegen loggedMaxRetriesMessageKey
       loggedCheckMessageKey loggedCheckValid
       setIsGenerating setDisposed setPendingTimerId setRetryCount
       setLastMessageKey setSuppressedByManualRegen
       setLoggedMaxRetriesMessageKey setLoggedCheck
       nowMs nextId timers] in *.

(** Equations between constructors and boolean comparisons, put to use. *)
Ltac tidy :=
  repeat match goal with
  | H : Some _ = Some _ |- _ => injection H as H; try subst
  | H : Some _ = None |- _ => discriminate H
  | H : None = Some _ |- _ => discriminate H
  | H : true = false |- _ => discriminate H
  | H : false = true |- _ => discriminate H
  | H : (_ <=? _) = true |- _ => apply Nat.leb_le in H
  | H : (_ <=? _) = false |- _ => apply Nat.leb_gt in H
  end.

(** One slot [key] stays invalid under settings that enable retries with a
    budget of [N] and a cooldown of [cd]. *)
Section RetryBudget.

Import Machine.

Variables (raw : RawSettings) (context : Runtime.Context) (host : Host).
Variables (key : jsstring) (N cd : nat).
Hypothesis Hkey : key <> [].
Hypothesis Hen : enabled (readSettings raw) = true.
Hypothesis HN : maxRetries (readSettings raw) = N.
Hypothesis Hcd : cooldownMs (readSettings raw) = cd.
Hypothesis Hhost : hostKeepsRetryState host.

(** An evaluation of the slot with invalid text: it keeps the invariant
    and the clock, invokes nothing, and schedules a retry exactly when
    none is pending and the budget is not used up. *)
Lemma ended_invalid (text : jsstring) (w : World) :
  Core.hasValidZhengwenTagString text = false ->
  retryInvariant key N w ->
  let w1 := step raw context host (ended key text) w in
  retryInvariant key N w1 /\
  regenerateCalls w1 = regenerateCalls w /\
  nowMs (scheduler w1) = nowMs (scheduler w) /\
  (pendingTimerId (controller w) = None ->
   retryCount (controller w) < N ->
   pendingTimerId (controller w1) = Some (nextId (scheduler w)) /\
   timers (scheduler w1)
   = [{| timer_id := nextId (scheduler w);
         timer_at := nowMs (scheduler w) + cd;
         timer_fn := RetryCallback key (retryCount (controller w) + 1) |}] /\
   retryCount (controller w1) = retryCount (controller w) + 1) /\
  (pendingTimerId (controller w) = None ->
   N <= retryCount (controller w) ->
   pendingTimerId (controller w1) = None /\
   retryCount (controller w1) = retryCount (controller w)).
Proof using All.
  intros Hinv (Hd & Hs & Hlast & Hle & Hpend).
  destruct key as [|k0 key'] eqn:Ekey; [congruence|].
  unfold retryInvariant. simpl step. unfold ended.
  unfold_controller. project_controller.
  cbn [Controller.messageKey Controller.messageText
       Controller.stringOrEmpty Core.hasValidZhengwenTag].
  rewrite Hd, Hen, HN, Hcd, Hs, Hinv, andb_false_r. simpl negb. cbv iota.
  destruct (pendingTimerId (controller w)) as [id|] eqn:Ep.
  - destruct Hlast as [Hl|(_ & _ & ?)]; [|discriminate].
    rewrite Hl, opt_jsstring_eqb_refl. simpl negb. cbv iota.
    destruct Hpend as [(at_ & attempt & Ht) Hc].
    repeat (break_match; project_all; rewrite ?Ep, ?Hd, ?Hs, ?Hl in * );
      project_all; rewrite ?Ep, ?Hd, ?Hs, ?Hl in *.
    all: tidy.
    all: repeat split; auto; try discriminate; eauto.
  - destruct Hpend as [Ht Hc].
    destruct Hlast as [Hl|(Hl & Hr & _)].
    + rewrite Hl, opt_jsstring_eqb_refl. simpl negb. cbv iota.
      repeat (break_match; project_all;
              rewrite ?Ep, ?Hd, ?Hs, ?Hl, ?Ht in * );
        project_all; rewrite ?Ep, ?Hd, ?Hs, ?Hl, ?Ht in *.
      all: tidy.
      all: repeat split; auto; try discriminate; try lia; eauto;
        try (eexists; eexists; reflexivity).
    + rewrite Hl. simpl opt_jsstring_eqb. simpl negb. cbv iota.
      project_controller. rewrite ?Ep. project_controller.
      repeat (break_match; project_all;
              rewrite ?Ep, ?Hd, ?Hs, ?Hl, ?Ht, ?Hr in * );
        project_all; rewrite ?Ep, ?Hd, ?Hs, ?Hl, ?Ht, ?Hr in *.
      all: tidy.
      all: repeat split; auto; try discriminate; try lia; eauto;
        try (eexists; eexists; reflexivity).
Qed.

Lemma advance_invariant (ms : nat) (w : World) :
  retryInvariant key N w ->
  retryInvariant key N (advance ms w) /\
  regenerateCalls (advance ms w) = regenerateCalls w /\
  controller (advance ms w) = controller w /\
  timers (scheduler (advance ms w)) = timers (scheduler w) /\
  nowMs (scheduler (advance ms w)) = nowMs (scheduler w) + ms.
Proof using All.
  intros H. repeat split; try reflexivity; try apply H.
Qed.

Lemma fireDue_idle (w : World) :
  timers (scheduler w) = [] -> fireDue raw context host w = w.
Proof using All. intros H. unfold fireDue. rewrite H. reflexivity. Qed.

(** The scheduler serving a pending retry: nothing before it is due, the
    invocation once it is. *)
Lemma fireDue_pending (w : World) (id at_ attempt : nat) :
  retryInvariant key N w ->
  pendingTimerId (controller w) = Some id ->
  timers (scheduler w)
  = [{| timer_id := id; timer_at := at_;
        timer_fn := RetryCallback key attempt |}] ->
  (nowMs (scheduler w) < at_ -> fireDue raw context host w = w) /\
  (at_ <= nowMs (scheduler w) ->
   let w1 := fireDue raw context host w in
   retryInvariant key N w1 /\
   pendingTimerId (controller w1) = None /\
   retryCount (controller w1) = retryCount (controller w) /\
   nowMs (scheduler w1) = nowMs (scheduler w) /\
   regenerateCalls w1 = regenerateCalls w ++ [nowMs (scheduler w)]).
Proof using All.
  intros (Hd & Hs & Hlast & Hle & Hpend) Hp Ht. rewrite Hp in Hpend.
  destruct Hpend as [_ Hc].
  unfold fireDue. rewrite Ht. simpl earliestDue. split.
  - intros Hlt. apply Nat.leb_gt in Hlt. rewrite Hlt. reflexivity.
  - intros Hdue. apply Nat.leb_le in Hdue. rewrite Hdue.
    cbn [timer_fn timer_id runCallback].
    rewrite retryCallback_invokes;
      [| exact Hd | exact Hen
       | unfold unschedule; cbn [controller updScheduler]; rewrite Hs;
         apply andb_false_r].
    match goal with
    | |- context [host ?x] =>
        pose proof (Hhost x eq_refl) as Hq; cbv zeta in Hq;
        destruct (host x) as [w' e]
    end.
    cbn [fst snd] in Hq.
    destruct Hq as (Hd' & Hp' & Hr' & Hl' & Hs' & Hsch & Hcalls).
    revert Hd' Hp' Hr' Hl' Hs' Hsch Hcalls.
    unfold unschedule, clearTimeout. project_all. rewrite Ht. simpl filter.
    rewrite Nat.eqb_refl. simpl.
    intros Hd' Hp' Hr' Hl' Hs' Hsch Hcalls.
    assert (Hfields :
      disposed (controller w') = false /\
      suppressedByManualRegen (controller w') = false /\
      lastMessageKey (controller w') = Some key /\
      retryCount (controller w') = retryCount (controller w) /\
      pendingTimerId (controller w') = None /\
      timers (scheduler w') = [] /\
      nowMs (scheduler w') = nowMs (scheduler w) /\
      regenerateCalls w' = regenerateCalls w ++ [nowMs (scheduler w)]).
    { rewrite Hd', Hs', Hl', Hr', Hp', Hsch, Hcalls. simpl.
      repeat split; auto.
      destruct Hlast as [H|(_ & _ & H)]; [exact H | congruence]. }
    destruct Hfields as (F1 & F2 & F3 & F4 & F5 & F6 & F7 & F8).
    assert (Hlen : length (regenerateCalls w ++ [nowMs (scheduler w)])
                   = retryCount (controller w)).
    { rewrite length_app. simpl. lia. }
    unfold retryInvariant.
    destruct e as [err|]; project_all;
      rewrite ?F1, ?F2, ?F3, ?F4, ?F5, ?F6, ?F7, ?F8;
      repeat split; auto.
Qed.

Lemma keepsInvalid_ended (a : Action) :
  keepsInvalid key a = true ->
  (exists text, a = ended key text /\
                Core.hasValidZhengwenTagString text = false) \/
  (exists ms, a = Advance ms) \/ a = FireDue.
Proof using All.
  destruct a as [ | [k t] | | | | ms | ]; simpl; try discriminate; auto.
  - destruct k as [ | | | | k | ]; try discriminate.
    destruct t as [ | | | | t | ]; try discriminate.
    intros H. apply andb_true_iff in H as [Hk Ht].
    apply jsstring_eqb_eq in Hk. subst k. apply negb_true_iff in Ht.
    left. exists t. split; [reflexivity | exact Ht].
  - intros _. right. left. exists ms. reflexivity.
Qed.

Lemma step_invariant (a : Action) (w : World) :
  keepsInvalid key a = true ->
  retryInvariant key N w ->
  retryInvariant key N (step raw context host a w).
Proof using All.
  intros Ha Hinv.
  destruct (keepsInvalid_ended a Ha) as [(text & -> & Ht)|[(ms & ->)| ->]].
  - apply (ended_invalid text w Ht Hinv).
  - apply (advance_invariant ms w Hinv).
  - simpl. pose proof Hinv as (_ & _ & _ & _ & Hpend).
    destruct (pendingTimerId (controller w)) as [id|] eqn:Ep.
    + destruct Hpend as [(at_ & attempt & Ht) _].
      destruct (fireDue_pending w id at_ attempt Hinv Ep Ht) as [Hnot Hdue].
      destruct (Nat.lt_ge_cases (nowMs (scheduler w)) at_) as [Hlt|Hge].
      * rewrite (Hnot Hlt). exact Hinv.
      * apply (Hdue Hge).
    + destruct Hpend as [Ht _]. rewrite (fireDue_idle w Ht). exact Hinv.
Qed.

Lemma run_invariant (actions : list Action) (w : World) :
  forallb (keepsInvalid key) actions = true ->
  retryInvariant key N w ->
  retryInvariant key N (run raw context host actions w).
Proof using All.
  revert w; induction actions as [|a l IH]; intros w Hl Hinv; [exact Hinv|].
  simpl in Hl. apply andb_true_iff in Hl as [Ha Hl].
  unfold run in *. simpl. apply IH; [exact Hl|].
  apply step_invariant; assumption.
Qed.

Lemma invariant_bound (w : World) :
  retryInvariant key N w -> length (regenerateCalls w) <= N.
Proof using All.
  intros (_ & _ & _ & Hle & Hpend).
  destruct (pendingTimerId (controller w)); destruct Hpend as [_ Hc]; lia.
Qed.

(** With the budget used up and nothing pending, nothing more happens. *)
Lemma exhausted_step (a : Action) (w : World) :
  keepsInvalid key a = true ->
  retryInvariant key N w ->
  pendingTimerId (controller w) = None ->
  retryCount (controller w) = N ->
  let w1 := step raw context host a w in
  retryInvariant key N w1 /\
  pendingTimerId (controller w1) = None /\
  retryCount (controller w1) = N /\
  regenerateCalls w1 = regenerateCalls w.
Proof using All.
  intros Ha Hinv Hp Hr.
  destruct (keepsInvalid_ended a Ha) as [(text & -> & Ht)|[(ms & ->)| ->]].
  - destruct (ended_invalid text w Ht Hinv) as (Hi & Hc & _ & _ & Hfull).
    destruct (Hfull Hp) as [Hp1 Hr1]; [lia|].
    cbv zeta. split; [exact Hi|]. split; [exact Hp1|].
    split; [congruence | exact Hc].
  - cbv zeta. simpl. split; [apply (advance_invariant ms w Hinv)|].
    split; [exact Hp|]. split; [exact Hr | reflexivity].
  - cbv zeta. simpl.
    pose proof Hinv as (_ & _ & _ & _ & Hpend). rewrite Hp in Hpend.
    destruct Hpend as [Ht _]. rewrite (fireDue_idle w Ht).
    split; [exact Hinv|]. split; [exact Hp|]. split; [exact Hr | reflexivity].
Qed.

Lemma exhausted_run (actions : list Action) (w : World) :
  forallb (keepsInvalid key) actions = true ->
  retryInvariant key N w ->
  pendingTimerId (controller w) = None ->
  retryCount (controller w) = N ->
  regenerateCalls (run raw context host actions w) = regenerateCalls w.
Proof using All.
  revert w; induction actions as [|a l IH]; intros w Hl Hinv Hp Hr;
    [reflexivity|].
  simpl in Hl. apply andb_true_iff in Hl as [Ha Hl].
  destruct (exhausted_step a w Ha Hinv Hp Hr) as (Hi & Hp1 & Hr1 & Hc).
  unfold run in *. simpl. rewrite (IH _ Hl Hi Hp1 Hr1). exact Hc.
Qed.

Lemma run_app (l1 l2 : list Action) (w : World) :
  run raw context host (l1 ++ l2) w
  = run raw context host l2 (run raw context host l1 w).
Proof using All. unfold run. apply fold_left_app. Qed.

(** One round from a state without a pending retry. *)
Lemma round_effect (text : jsstring) (wait : nat) (w : World) :
  Core.hasValidZhengwenTagString text = false ->
  retryInvariant key N w ->
  pendingTimerId (controller w) = None ->
  let w1 := run raw context host (round key (text, wait)) w in
  retryInvariant key N w1 /\
  nowMs (scheduler w1) = nowMs (scheduler w) + wait /\
  (N <= retryCount (controller w) ->
   pendingTimerId (controller w1) = None /\
   retryCount (controller w1) = retryCount (controller w) /\
   regenerateCalls w1 = regenerateCalls w) /\
  (retryCount (controller w) < N ->
   (wait < cd ->
    regenerateCalls w1 = regenerateCalls w) /\
   (cd <= wait ->
    pendingTimerId (controller w1) = None /\
    retryCount (controller w1) = retryCount (controller w) + 1 /\
    regenerateCalls w1 = regenerateCalls w ++ [nowMs (scheduler w) + wait])).
Proof using All.
  intros Ht Hinv Hp. cbv zeta.
  change (run raw context host (round key (text, wait)) w)
    with (fireDue raw context host
            (advance wait (step raw context host (ended key text) w))).
  destruct (ended_invalid text w Ht Hinv) as (Hi1 & Hc1 & Hn1 & Hsched & Hfull).
  set (w1 := step raw context host (ended key text) w) in *.
  destruct (advance_invariant wait w1 Hi1) as (Hi2 & Hc2 & Hctl2 & Ht2 & Hn2).
  set (w2 := advance wait w1) in *.
  destruct (Nat.lt_ge_cases (retryCount (controller w)) N) as [Hlt|Hge].
  - destruct (Hsched Hp Hlt) as (Hp1 & Htm1 & Hr1).
    assert (Hp2 : pendingTimerId (controller w2) = Some (nextId (scheduler w)))
      by (rewrite Hctl2; exact Hp1).
    assert (Htm2 : timers (scheduler w2)
                   = [{| timer_id := nextId (scheduler w);
                         timer_at := nowMs (scheduler w) + cd;
                         timer_fn := RetryCallback key
                                       (retryCount (controller w) + 1) |}])
      by (rewrite Ht2; exact Htm1).
    destruct (fireDue_pending w2 _ _ _ Hi2 Hp2 Htm2) as [Hnot Hdue].
    destruct (Nat.lt_ge_cases wait cd) as [Hearly|Hlate].
    + rewrite Hnot by lia.
      split; [exact Hi2|]. split; [lia|]. split; [lia|].
      intros _. split; [intros _; congruence | lia].
    + destruct Hdue as (Hi3 & Hp3 & Hr3 & Hn3 & Hc3); [lia|].
      split; [exact Hi3|]. split; [lia|]. split; [lia|].
      intros _. split; [lia|]. intros _.
      split; [exact Hp3|]. split; [rewrite Hr3, Hctl2; exact Hr1|].
      rewrite Hc3, Hc2, Hc1, Hn2, Hn1. reflexivity.
  - destruct (Hfull Hp Hge) as (Hp1 & Hr1).
    pose proof Hi1 as (_ & _ & _ & _ & Hpend). rewrite Hp1 in Hpend.
    destruct Hpend as [Htm1 _].
    assert (Htm2 : timers (scheduler w2) = []) by (rewrite Ht2; exact Htm1).
    rewrite (fireDue_idle w2 Htm2).
    split; [exact Hi2|]. split; [lia|]. split; [|lia].
    intros _. split; [rewrite Hctl2; exact Hp1|].
    split; [rewrite Hctl2; exact Hr1 | congruence].
Qed.

(** Round after round: one invocation at the end of each round while the
    budget lasts. *)
Lemma rounds_effect (rs : list (jsstring * nat)) (w : World) :
  forallb (fun r => negb (Core.hasValidZhengwenTagString (fst r))
                    && (cd <=? snd r)) rs = true ->
  retryInvariant key N w ->
  pendingTimerId (controller w) = None ->
  let w' := run raw context host (rounds key rs) w in
  retryInvariant key N w' /\
  pendingTimerId (controller w') = None /\
  retryCount (controller w')
  = Nat.min N (retryCount (controller w) + length rs) /\
  regenerateCalls w'
  = regenerateCalls w
    ++ firstn (N - retryCount (controller w))
         (roundEnds (nowMs (scheduler w)) (map snd rs)).
Proof using All.
  revert w; induction rs as [|[text wait] rs IH]; intros w Hok Hinv Hp.
  - cbv zeta. simpl. pose proof Hinv as (_ & _ & _ & Hle & _).
    split; [exact Hinv|]. split; [exact Hp|]. split; [lia|].
    rewrite firstn_nil, app_nil_r. reflexivity.
  - simpl in Hok. apply andb_true_iff in Hok as [Hr Hok].
    apply andb_true_iff in Hr as [Htext Hwait].
    apply negb_true_iff in Htext. apply Nat.leb_le in Hwait.
    cbv zeta.
    change (rounds key ((text, wait) :: rs))
      with (round key (text, wait) ++ rounds key rs).
    rewrite run_app.
    destruct (round_effect text wait w Htext Hinv Hp)
      as (Hi1 & Hn1 & Hfull & Hroom).
    set (w1 := run raw context host (round key (text, wait)) w) in *.
    pose proof Hinv as (_ & _ & _ & Hle & _).
    destruct (Nat.lt_ge_cases (retryCount (controller w)) N) as [Hlt|Hge].
    + destruct (Hroom Hlt) as [_ Hlate].
      destruct (Hlate Hwait) as (Hp1 & Hr1 & Hc1).
      destruct (IH w1 Hok Hi1 Hp1) as (Hi2 & Hp2 & Hr2 & Hc2).
      split; [exact Hi2|]. split; [exact Hp2|].
      split; [rewrite Hr2, Hr1; simpl length; lia|].
      rewrite Hc2, Hc1, Hn1, Hr1. rewrite <- app_assoc. f_equal.
      simpl map. simpl roundEnds.
      replace (N - retryCount (controller w))
        with (S (N - (retryCount (controller w) + 1))) by lia.
      reflexivity.
    + destruct (Hfull Hge) as (Hp1 & Hr1 & Hc1).
      destruct (IH w1 Hok Hi1 Hp1) as (Hi2 & Hp2 & Hr2 & Hc2).
      split; [exact Hi2|]. split; [exact Hp2|].
      split; [rewrite Hr2, Hr1; simpl length; lia|].
      rewrite Hc2, Hc1, Hr1.
      replace (N - retryCount (controller w)) with 0 by lia.
      reflexivity.
Qed.

End RetryBudget.

Section RetryRounds.

Import Machine.

Lemma roundEnds_length (t : nat) (waits : list nat) :
  length (roundEnds t waits) = length waits.
Proof.
  revert t; induction waits as [|d l IH]; intros t; simpl; auto.
Qed.

Lemma rounds_spaced (cd : nat) (waits : list nat) (t n : nat) :
  Forall (fun d => cd <= d) waits ->
  Forall2 (fun call start => start + cd <= call)
    (firstn n (roundEnds t waits)) (firstn n (roundStarts t waits)).
Proof.
  intros H. revert t n; induction H as [|d l Hd _ IH]; intros t n.
  - rewrite !firstn_nil. constructor.
  - destruct n as [|n]; simpl; constructor; [lia | apply IH].
Qed.

Lemma initialWorld_invariant (key : jsstring) (N : nat) :
  retryInvariant key N initialWorld.
Proof.
  unfold retryInvariant; simpl. repeat split; auto. lia.
Qed.

Lemma clickQuiet_keeps : hostKeepsRetryState clickQuiet.
Proof. intros w Hp. simpl. repeat split; auto. Qed.

Lemma clickThrows_keeps (err : Exn) : hostKeepsRetryState (clickThrows err).
Proof. intros w Hp. simpl. repeat split; auto. Qed.

Lemma clickStartsGeneration_keeps : hostKeepsRetryState clickStartsGeneration.
Proof.
  intros w Hp. unfold clickStartsGeneration, Controller.onGenerationStarted,
    Controller.cancelPending. project_all. rewrite Hp. simpl.
  repeat split; auto.
Qed.

(** C1.  With [maxRetries = N] and [cooldownMs = cd], let the controller
    receive [GenerationEnded] for one slot with invalid text, round after
    round, each round waiting at least [cd] before the scheduler serves
    the timers.  The regenerate action is then invoked once at the end of
    each of the first [N] rounds and never again: the invocations are
    [min N rounds] in number, each at least [cd] after the evaluation that
    scheduled it; an evaluation followed by a wait shorter than [cd]
    invokes nothing; once [N] rounds are over, no further evaluation of
    the slot with invalid text and no passing of time invokes the action;
    and however such evaluations and waits are interleaved, the action is
    invoked at most [N] times. *)
Theorem retries_stop_at_maxRetries (raw : RawSettings)
  (context : Runtime.Context) (host : Host) (key : jsstring) (N cd : nat)
  (rs : list (jsstring * nat)) :
  key <> [] ->
  enabled (readSettings raw) = true ->
  maxRetries (readSettings raw) = N ->
  cooldownMs (readSettings raw) = cd ->
  hostKeepsRetryState host ->
  forallb (fun r => negb (Core.hasValidZhengwenTagString (fst r))
                    && (cd <=? snd r)) rs = true ->
  let w := run raw context host (rounds key rs) initialWorld in
  regenerateCalls w = firstn N (roundEnds 0 (map snd rs)) /\
  length (regenerateCalls w) = Nat.min N (length rs) /\
  Forall2 (fun call start => start + cd <= call)
    (regenerateCalls w) (firstn N (roundStarts 0 (map snd rs))) /\
  (forall text early,
     Core.hasValidZhengwenTagString text = false -> early < cd ->
     regenerateCalls (run raw context host (round key (text, early)) w)
     = regenerateCalls w) /\
  (N <= length rs ->
   forall actions,
     forallb (keepsInvalid key) actions = true ->
     regenerateCalls (run raw context host actions w) = regenerateCalls w) /\
  (forall actions,
     forallb (keepsInvalid key) actions = true ->
     length (regenerateCalls (run raw context host actions initialWorld))
     <= N).
Proof.
  intros Hkey Hen HN Hcd Hhost Hok. cbv zeta.
  destruct (rounds_effect raw context host key N cd Hkey Hen HN Hcd Hhost
              rs initialWorld Hok (initialWorld_invariant key N) eq_refl)
    as (Hinv & Hp & Hr & Hc).
  simpl in Hc, Hr. rewrite Nat.sub_0_r in Hc.
  split; [exact Hc|]. split.
  { rewrite Hc, length_firstn, roundEnds_length, length_map. reflexivity. }
  split.
  { rewrite Hc. apply rounds_spaced.
    apply Forall_forall. intros d Hd. apply in_map_iff in Hd as (r & <- & Hin).
    rewrite forallb_forall in Hok. specialize (Hok r Hin).
    apply andb_true_iff in Hok as [_ Hok]. apply Nat.leb_le; exact Hok. }
  split.
  { intros text early Htext Hearly.
    destruct (round_effect raw context host key N cd Hkey Hen HN Hcd Hhost
                text early _ Htext Hinv Hp) as (_ & _ & Hfull & Hroom).
    destruct (Nat.lt_ge_cases
                (retryCount
                   (controller
                      (run raw context host (rounds key rs) initialWorld)))
                N) as [Hlt|Hge].
    - apply (Hroom Hlt); exact Hearly.
    - apply (Hfull Hge). }
  split.
  { intros Hlen actions Ha.
    apply (exhausted_run raw context host key N cd Hkey Hen HN Hcd Hhost);
      auto. lia. }
  intros actions Ha.
  apply (invariant_bound raw context host key N cd Hkey Hen HN Hcd Hhost).
  apply (run_invariant raw context host key N cd Hkey Hen HN Hcd Hhost);
    [exact Ha | apply initialWorld_invariant].
Qed.


Lemma retries_stop_at_maxRetries_witness :
  let raw := Samples.settingsOf 2 1000 false in
  let rs := [(str "no tag", 1000); (str "still invalid", 1000);
             (str "still invalid again", 1000)] in
  let w := run raw Samples.invalidReply clickStartsGeneration
             (rounds Samples.slotA1 rs) initialWorld in
  hostKeepsRetryState clickStartsGeneration /\
  regenerateCalls w = [1000; 2000] /\
  regenerateCalls
    (run raw Samples.invalidReply clickStartsGeneration
       (round Samples.slotA1 (str "no tag", 999)) initialWorld) = [].
Proof.
  intros raw rs w.
  split; [exact clickStartsGeneration_keeps|]. split.
  - exact (proj1 (retries_stop_at_maxRetries raw Samples.invalidReply
                    clickStartsGeneration Samples.slotA1 2 1000 rs
                    ltac:(discriminate) eq_refl eq_refl eq_refl
                    clickStartsGeneration_keeps eq_refl)).
  - destruct (retries_stop_at_maxRetries raw Samples.invalidReply
                clickStartsGeneration Samples.slotA1 2 1000 []
                ltac:(discriminate) eq_refl eq_refl eq_refl
                clickStartsGeneration_keeps eq_refl)
      as (_ & _ & _ & Hearly & _).
    apply (Hearly (str "no tag") 999 eq_refl). lia.
Defined.

(** The end-to-end test, through the runtime: the host's click emits
    GENERATION_STARTED at once, and the reply at index 1 stays invalid. *)
Example e2e_retries_up_to_maxRetries :
  let raw := Samples.settingsOf 2 1000 false in
  let ctx := Samples.invalidReply in
  let host : Host := fun w => (Runtime.onGenerationStarted ctx w, None) in
  let serve ms w := fireDue raw ctx host (advance ms w) in
  let w0 := Runtime.onGenerationEnded raw ctx initialWorld in
  let w1 := serve 999 w0 in
  let w2 := serve 1 w1 in
  let w3 := serve 1000 (Runtime.onGenerationEnded raw ctx w2) in
  let w4 := serve 1000 (Runtime.onGenerationEnded raw ctx w3) in
  regenerateCalls w0 = [] /\
  regenerateCalls w1 = [] /\
  regenerateCalls w2 = [1000] /\
  regenerateCalls w3 = [1000; 2000] /\
  regenerateCalls w4 = [1000; 2000].
Proof. repeat split; reflexivity. Qed.

End RetryRounds.
